(** * Session interaction engine of the learning portal

    A shallow embedding of the two stateful screens of the front end:

    - [QuizPage]: the quiz session (pages/QuizPage.tsx), a React component
      whose hooks are modelled as one record of state cells, whose event
      handlers are modelled as state transformers and whose rendering
      conditions decide which events can occur at all;
    - [LearningPage]: the chat session (pages/LearningPage.tsx), with the
      asynchronous [handleSendMessage] split at its single [await].

    An [async] handler is represented by two transformers: the part that runs
    synchronously on the click, which leaves a pending request behind, and the
    continuation that runs when the request settles.  Other events may occur
    in between, exactly as in the browser's event loop.

    JavaScript numbers that the code only uses as integers (ids, indices,
    millisecond timestamps, counts) are integers of [Z].  The percentage of
    the result view, the session store and the progress bar compute with the
    doubles of [Js.number], each operation rounding as IEEE 754 has it; the
    seconds of a submission and the width of the quiz's progress bar are
    kept as exact quotients of integers, in [Q].  A string is the bytes of
    its UTF-8 encoding. *)

From Stdlib Require Import ZArith QArith Qround Qabs Qpower Qreduction.
From Stdlib Require Import Lia Lqa Ascii String SpecFloat.
From stdpp Require Import gmap strings list pretty.

Open Scope Z_scope.

(** ** What JavaScript provides *)

Module Js.

(** The value thrown at a rejected [await]: the code only ever reads [name]
    and [message], both through optional chaining. *)
Record Error := { name : string; message : option string }.

(** The two ways an awaited promise settles. *)
Inductive Outcome (A : Type) :=
| Resolved (data : A)
| Rejected (err : Error).
Arguments Resolved {A} data.
Arguments Rejected {A} err.

(** [!s] of a string is true exactly for the empty string. *)
Definition truthy (s : string) : bool := negb (String.eqb s "").

(** [obj[key]] used as a condition: a missing key is [undefined]. *)
Definition truthy_opt (o : option string) : bool :=
  match o with
  | Some s => truthy s
  | None => false
  end.

(** [hay.includes(needle)]. *)
Definition includes (needle hay : string) : bool :=
  match String.index 0 needle hay with
  | Some _ => true
  | None => false
  end.

(** [err?.message?.includes('timeout')] as a condition. *)
Definition mentions_timeout (err : Error) : bool :=
  match message err with
  | Some m => includes "timeout" m
  | None => false
  end.

(** [arr[i]] for a number [i] that is an integer: [undefined] out of range. *)
Definition at_index {A : Type} (l : list A) (i : Z) : option A :=
  if i <? 0 then None else l !! Z.to_nat i.

(** [arr.length]. *)
Definition len {A : Type} (l : list A) : Z := Z.of_nat (length l).

(** The nearest integer, a tie going up. *)
Definition round_half_up (x : Q) : Z := Qfloor (x + (1 # 2)).

(** *** Numbers

    A number is a double of IEEE 754 (binary64): a finite value, an infinity
    or NaN.  A finite double is held as the rational it stands for, in
    lowest terms; the two zeros are one value, since nothing here divides by
    a zero that was computed or shows the sign of one. *)
Inductive number :=
| Finite (q : Q)
| Infinite (negative : bool)
| NaN.

(** The integer [e] with 2^e ≤ x < 2^(e+1), for a positive [x]. *)
Definition ilog2 (x : Q) : Z :=
  let c := Z.log2 (Qnum x) - Z.log2 (Zpos (Qden x)) in
  if Qle_bool (2 ^ c) x then c else c - 1.

(** The nearest integer, a tie going to the even one. *)
Definition round_half_even (x : Q) : Z :=
  let f := Qfloor x in
  match (x - inject_Z f ?= 1 # 2)%Q with
  | Lt => f
  | Gt => f + 1
  | Eq => if Z.even f then f else f + 1
  end.

(** The doubles around [x] are the multiples of 2 to this power: a
    significand of 53 bits, and 2^-1074 for the least of them. *)
Definition ulp_exponent (x : Q) : Z := Z.max (ilog2 (Qabs x) - 52) (-1074).

(** The nearest of these multiples, a tie going to the even significand. *)
Definition nearest (x : Q) : Q :=
  if Qeq_bool x 0 then 0%Q
  else Qred (inject_Z (round_half_even (x / 2 ^ ulp_exponent x)) * 2 ^ ulp_exponent x).

Definition negative (x : Q) : bool := negb (Qle_bool 0 x).

(** The double that an exact result [x] is rounded to: past the largest
    double, an infinity. *)
Definition to_number (x : Q) : number :=
  if Qle_bool (2 ^ 1024) (Qabs (nearest x)) then Infinite (negative x)
  else Finite (nearest x).

(** A number read from JSON or written as a literal, when it is an
    integer. *)
Definition Number_of_Z (z : Z) : number := to_number (inject_Z z).

(** [a + b]. *)
Definition Number_add (a b : number) : number :=
  match a, b with
  | NaN, _ | _, NaN => NaN
  | Finite x, Finite y => to_number (x + y)
  | Infinite s, Finite _ | Finite _, Infinite s => Infinite s
  | Infinite s, Infinite t => if Bool.eqb s t then Infinite s else NaN
  end.

(** [a * b]. *)
Definition Number_mul (a b : number) : number :=
  match a, b with
  | NaN, _ | _, NaN => NaN
  | Finite x, Finite y => to_number (x * y)
  | Infinite s, Finite y | Finite y, Infinite s =>
      if Qeq_bool y 0 then NaN else Infinite (xorb s (negative y))
  | Infinite s, Infinite t => Infinite (xorb s t)
  end.

(** [a / b]. *)
Definition Number_div (a b : number) : number :=
  match a, b with
  | NaN, _ | _, NaN => NaN
  | Finite x, Finite y =>
      if Qeq_bool y 0
      then (if Qeq_bool x 0 then NaN else Infinite (negative x))
      else to_number (x / y)
  | Finite _, Infinite _ => Finite 0
  | Infinite s, Finite y => Infinite (xorb s (negative y))
  | Infinite _, Infinite _ => NaN
  end.

(** [a <= b]. *)
Definition Number_le (a b : number) : bool :=
  match a, b with
  | NaN, _ | _, NaN => false
  | Finite x, Finite y => Qle_bool x y
  | Infinite s, Infinite t => s || negb t
  | Infinite s, Finite _ => s
  | Finite _, Infinite t => negb t
  end.

(** [Math.max(a, b)] and [Math.min(a, b)]. *)
Definition Math_max (a b : number) : number :=
  match a, b with
  | NaN, _ | _, NaN => NaN
  | _, _ => if Number_le a b then b else a
  end.

Definition Math_min (a b : number) : number :=
  match a, b with
  | NaN, _ | _, NaN => NaN
  | _, _ => if Number_le a b then a else b
  end.

(** [Math.round(a)]: exact, the result being a double whenever [a] is. *)
Definition Math_round (a : number) : number :=
  match a with
  | Finite x => Finite (inject_Z (round_half_up x))
  | _ => a
  end.

(** The value of a double of the Standard Library's binary64. *)
Definition of_binary64 (f : spec_float) : number :=
  match f with
  | S754_zero _ => Finite 0
  | S754_infinity s => Infinite s
  | S754_nan => NaN
  | S754_finite s m e =>
      Finite (Qred (inject_Z (if s then Z.neg m else Z.pos m) * 2 ^ e))
  end.

Definition binary64_of_Z (z : Z) : spec_float := binary_normalize 53 1024 z 0 false.

Definition same_number (a b : number) : bool :=
  match a, b with
  | Finite x, Finite y => Qeq_bool x y
  | Infinite s, Infinite t => Bool.eqb s t
  | NaN, NaN => true
  | _, _ => false
  end.

(** A string is held as the bytes of its UTF-8 encoding.

    White space, as [String.prototype.trim] and the class [\s] of regular
    expressions see it (WhiteSpace and LineTerminator of ECMAScript): of one
    byte U+0009 to U+000D and U+0020; of two bytes U+00A0; of three bytes
    U+1680, U+2000 to U+200A, U+2028, U+2029, U+202F, U+205F, U+3000 and
    U+FEFF. *)
Definition is_space (c : ascii) : bool :=
  let n := nat_of_ascii c in
  ((9 <=? n) && (n <=? 13))%nat || (n =? 32)%nat.

Definition is_space2 (a b : ascii) : bool :=
  ((nat_of_ascii a =? 194) && (nat_of_ascii b =? 160))%nat.

Definition is_space3 (a b c : ascii) : bool :=
  let x := nat_of_ascii a in
  let y := nat_of_ascii b in
  let z := nat_of_ascii c in
  ((x =? 225) && (y =? 154) && (z =? 128)
   || (x =? 226) && (y =? 128)
      && ((128 <=? z) && (z <=? 138) || (z =? 168) || (z =? 169) || (z =? 175))
   || (x =? 226) && (y =? 129) && (z =? 159)
   || (x =? 227) && (y =? 128) && (z =? 128)
   || (x =? 239) && (y =? 187) && (z =? 191))%nat.

(** The white space at the head of a string removed; with [back] the string
    is read from its end, each character with its last byte first. *)
Fixpoint strip (back : bool) (s : string) : string :=
  match s with
  | String a s1 =>
      if is_space a then strip back s1
      else
        match s1 with
        | String b s2 =>
            if (if back then is_space2 b a else is_space2 a b) then strip back s2
            else
              match s2 with
              | String c s3 =>
                  if (if back then is_space3 c b a else is_space3 a b c)
                  then strip back s3
                  else s
              | EmptyString => s
              end
        | EmptyString => s
        end
  | EmptyString => EmptyString
  end.

Definition trimStart (s : string) : string := strip false s.

Definition trimEnd (s : string) : string :=
  String.rev (strip true (String.rev s)).

Definition trim (s : string) : string := trimEnd (trimStart s).

End Js.

(** ** The quiz page *)

Module QuizPage.

Import Js.

Record QuizQuestion := {
  id : Z;
  question : string;
  options : list string
}.

Record QuizData := {
  quiz_id : string;
  difficulty : string;
  questions : list QuizQuestion
}.

Record QuizResult := {
  score : Z;
  total : Z;
  xp_gained : Z;
  new_difficulty : string;
  confidence_score : Q;
  learning_momentum : Q;
  weak_topics : list string
}.

Record Chapter := { chapter_id : string; chapter_name : string }.

Record SubjectOption := {
  subject_id : string;
  subject_name : string;
  chapters : list Chapter
}.

Inductive Step := Setup | Quiz | Result.

(** Bodies of the two POST requests. *)
Record GenerateBody := {
  gen_student_id : option string;
  gen_subject : string;
  gen_chapter_id : string;
  num_questions : Z
}.

Record SubmitBody := {
  sub_student_id : option string;
  sub_quiz_id : string;
  sub_answers : gmap Z string;
  time_taken : Q
}.

(** A request that has been sent and whose [await] has not resumed yet. *)
Inductive Request :=
| Generate (body : GenerateBody)
| Submit (body : SubmitBody).

(** The [useState] cells of the component, the student of the auth store,
    and the requests in flight. *)
Record State := {
  student : option string;
  step : Step;
  subject : string;
  chapterId : string;
  quiz : option QuizData;
  answers : gmap Z string;
  currentQ : Z;
  result : option QuizResult;
  loading : bool;
  error : option string;
  startTime : Z;
  subjectOptions : list SubjectOption;
  inflight : list Request
}.

(** The state at mount: [sp_subject] and [sp_chapter] are the search
    parameters (or the empty string), [now] is [Date.now()] at the first
    render. *)
Definition mount (stu : option string) (sp_subject sp_chapter : string) (now : Z) : State :=
  {| student := stu; step := Setup; subject := sp_subject; chapterId := sp_chapter;
     quiz := None; answers := ∅; currentQ := 0; result := None;
     loading := false; error := None; startTime := now;
     subjectOptions := []; inflight := [] |}.

(** *** State setters *)

Definition setStep (v : Step) (s : State) : State :=
  {| student := student s; step := v; subject := subject s; chapterId := chapterId s;
     quiz := quiz s; answers := answers s; currentQ := currentQ s; result := result s;
     loading := loading s; error := error s; startTime := startTime s;
     subjectOptions := subjectOptions s; inflight := inflight s |}.

Definition setSubject (v : string) (s : State) : State :=
  {| student := student s; step := step s; subject := v; chapterId := chapterId s;
     quiz := quiz s; answers := answers s; currentQ := currentQ s; result := result s;
     loading := loading s; error := error s; startTime := startTime s;
     subjectOptions := subjectOptions s; inflight := inflight s |}.

Definition setChapterId (v : string) (s : State) : State :=
  {| student := student s; step := step s; subject := subject s; chapterId := v;
     quiz := quiz s; answers := answers s; currentQ := currentQ s; result := result s;
     loading := loading s; error := error s; startTime := startTime s;
     subjectOptions := subjectOptions s; inflight := inflight s |}.

Definition setQuiz (v : option QuizData) (s : State) : State :=
  {| student := student s; step := step s; subject := subject s; chapterId := chapterId s;
     quiz := v; answers := answers s; currentQ := currentQ s; result := result s;
     loading := loading s; error := error s; startTime := startTime s;
     subjectOptions := subjectOptions s; inflight := inflight s |}.

Definition setAnswers (f : gmap Z string → gmap Z string) (s : State) : State :=
  {| student := student s; step := step s; subject := subject s; chapterId := chapterId s;
     quiz := quiz s; answers := f (answers s); currentQ := currentQ s; result := result s;
     loading := loading s; error := error s; startTime := startTime s;
     subjectOptions := subjectOptions s; inflight := inflight s |}.

Definition setCurrentQ (f : Z → Z) (s : State) : State :=
  {| student := student s; step := step s; subject := subject s; chapterId := chapterId s;
     quiz := quiz s; answers := answers s; currentQ := f (currentQ s); result := result s;
     loading := loading s; error := error s; startTime := startTime s;
     subjectOptions := subjectOptions s; inflight := inflight s |}.

Definition setResult (v : option QuizResult) (s : State) : State :=
  {| student := student s; step := step s; subject := subject s; chapterId := chapterId s;
     quiz := quiz s; answers := answers s; currentQ := currentQ s; result := v;
     loading := loading s; error := error s; startTime := startTime s;
     subjectOptions := subjectOptions s; inflight := inflight s |}.

Definition setLoading (v : bool) (s : State) : State :=
  {| student := student s; step := step s; subject := subject s; chapterId := chapterId s;
     quiz := quiz s; answers := answers s; currentQ := currentQ s; result := result s;
     loading := v; error := error s; startTime := startTime s;
     subjectOptions := subjectOptions s; inflight := inflight s |}.

Definition setError (v : option string) (s : State) : State :=
  {| student := student s; step := step s; subject := subject s; chapterId := chapterId s;
     quiz := quiz s; answers := answers s; currentQ := currentQ s; result := result s;
     loading := loading s; error := v; startTime := startTime s;
     subjectOptions := subjectOptions s; inflight := inflight s |}.

Definition setSubjectOptions (v : list SubjectOption) (s : State) : State :=
  {| student := student s; step := step s; subject := subject s; chapterId := chapterId s;
     quiz := quiz s; answers := answers s; currentQ := currentQ s; result := result s;
     loading := loading s; error := error s; startTime := startTime s;
     subjectOptions := v; inflight := inflight s |}.

Definition setInflight (f : list Request → list Request) (s : State) : State :=
  {| student := student s; step := step s; subject := subject s; chapterId := chapterId s;
     quiz := quiz s; answers := answers s; currentQ := currentQ s; result := result s;
     loading := loading s; error := error s; startTime := startTime s;
     subjectOptions := subjectOptions s; inflight := f (inflight s) |}.

(** *** The handlers *)

(** [handleStartQuiz] up to its [await]. *)
Definition handleStartQuiz (s : State) : State :=
  if negb (truthy (subject s)) || negb (truthy (chapterId s)) then s
  else
    let body := {| gen_student_id := student s; gen_subject := subject s;
                   gen_chapter_id := chapterId s; num_questions := 5 |} in
    setInflight (λ l, l ++ [Generate body]) (setError None (setLoading true s)).

(** [handleStartQuiz] from its [await] on: [o] is how [api.post] settled,
    with [res.data] as payload ([None] for a body that is not an object). *)
Definition handleStartQuiz_resume (o : Outcome (option QuizData)) (s : State) : State :=
  match o with
  | Resolved data =>
      match data with
      | Some qz =>
          if len (questions qz) =? 0
          then setLoading false (setError (Some "Quiz returned no questions. Please try again.") s)
          else setLoading false
                 (setAnswers (λ _, ∅) (setCurrentQ (λ _, 0) (setStep Quiz (setQuiz (Some qz) s))))
      | None =>
          setLoading false (setError (Some "Quiz returned no questions. Please try again.") s)
      end
  | Rejected err =>
      setLoading false
        (setError (Some (if mentions_timeout err
                         then "Server timed out. Try again."
                         else "Failed to generate quiz. Check your connection.")) s)
  end.

Definition handleSelectAnswer (questionId : Z) (answer : string) (s : State) : State :=
  setAnswers (λ prev, <[questionId := answer]> prev) s.

(** [handleSubmitQuiz] up to its [await]; [now] is [Date.now()]. *)
Definition handleSubmitQuiz (now : Z) (s : State) : State :=
  match quiz s with
  | None => s
  | Some qz =>
      let timeTaken := (inject_Z (now - startTime s) / 1000)%Q in
      let body := {| sub_student_id := student s; sub_quiz_id := quiz_id qz;
                     sub_answers := answers s; time_taken := timeTaken |} in
      setInflight (λ l, l ++ [Submit body]) (setError None (setLoading true s))
  end.

(** [handleSubmitQuiz] from its [await] on. *)
Definition handleSubmitQuiz_resume (o : Outcome (option QuizResult)) (s : State) : State :=
  match o with
  | Resolved data => setLoading false (setStep Result (setResult data s))
  | Rejected _ =>
      setLoading false (setError (Some "Failed to submit quiz. Your answers were not saved.") s)
  end.

(** The click handler of the New Quiz button. *)
Definition newQuiz (s : State) : State :=
  setResult None (setQuiz None (setStep Setup s)).

(** *** What is rendered *)

(** The quiz view is rendered when [step === 'quiz' && quiz]; it reads
    [quiz.questions[currentQ]] at once. *)
Definition shown_question (s : State) : option (QuizData * QuizQuestion) :=
  match step s, quiz s with
  | Quiz, Some qz =>
      match at_index (questions qz) (currentQ s) with
      | Some q => Some (qz, q)
      | None => None
      end
  | _, _ => None
  end.

Definition isLast (qz : QuizData) (s : State) : bool :=
  currentQ s =? len (questions qz) - 1.

Definition allAnswered (qz : QuizData) (s : State) : bool :=
  forallb (λ q, truthy_opt (answers s !! id q)) (questions qz).

Definition selectedSubject (s : State) : option SubjectOption :=
  find (λ o, String.eqb (subject_id o) (subject s)) (subjectOptions s).

(** *** Events *)

Inductive Event :=
| SubjectsFetched (opts : list SubjectOption)
| ClickSubject (i : nat)
| ClickChapter (i : nat)
| ClickStart
| GenerateSettled (k : nat) (o : Outcome (option QuizData))
| ClickOption (i : nat)
| ClickPrevious
| ClickNext
| ClickSubmit
| SubmitSettled (k : nat) (o : Outcome (option QuizResult))
| ClickNewQuiz.

(** One turn of the event loop at wall-clock time [now]; [None] when the
    event cannot occur in [s] (the control is not rendered or is disabled,
    or no such request is in flight). *)
Definition handle (now : Z) (s : State) (e : Event) : option State :=
  match e with
  | SubjectsFetched opts => Some (setSubjectOptions opts s)
  | ClickSubject i =>
      match step s, subjectOptions s !! i with
      | Setup, Some o => Some (setChapterId "" (setSubject (subject_id o) s))
      | _, _ => None
      end
  | ClickChapter i =>
      match step s, selectedSubject s with
      | Setup, Some o =>
          match chapters o !! i with
          | Some ch => Some (setChapterId (chapter_id ch) s)
          | None => None
          end
      | _, _ => None
      end
  | ClickStart =>
      match step s with
      | Setup =>
          if negb (truthy (subject s)) || negb (truthy (chapterId s)) || loading s
          then None
          else Some (handleStartQuiz s)
      | _ => None
      end
  | GenerateSettled k o =>
      match inflight s !! k with
      | Some (Generate _) => Some (handleStartQuiz_resume o (setInflight (delete k) s))
      | _ => None
      end
  | ClickOption i =>
      match shown_question s with
      | Some (_, q) =>
          match options q !! i with
          | Some option => Some (handleSelectAnswer (id q) option s)
          | None => None
          end
      | None => None
      end
  | ClickPrevious =>
      match shown_question s with
      | Some _ => if 0 <? currentQ s then Some (setCurrentQ (λ prev, prev - 1) s) else None
      | None => None
      end
  | ClickNext =>
      match shown_question s with
      | Some (qz, q) =>
          if isLast qz s then None
          else if negb (truthy_opt (answers s !! id q)) then None
          else Some (setCurrentQ (λ prev, prev + 1) s)
      | None => None
      end
  | ClickSubmit =>
      match shown_question s with
      | Some (qz, _) =>
          if negb (isLast qz s) then None
          else if negb (allAnswered qz s) || loading s then None
          else Some (handleSubmitQuiz now s)
      | None => None
      end
  | SubmitSettled k o =>
      match inflight s !! k with
      | Some (Submit _) => Some (handleSubmitQuiz_resume o (setInflight (delete k) s))
      | _ => None
      end
  | ClickNewQuiz =>
      match step s, result s with
      | Result, Some _ => Some (newQuiz s)
      | _, _ => None
      end
  end.

(** A run of timed events. *)
Fixpoint run (s : State) (tr : list (Z * Event)) : option State :=
  match tr with
  | [] => Some s
  | (now, e) :: tr' =>
      match handle now s e with
      | Some s' => run s' tr'
      | None => None
      end
  end.

(** States the page can be in. *)
Inductive reachable : State → Prop :=
| reachable_mount stu sp_subject sp_chapter now :
    reachable (mount stu sp_subject sp_chapter now)
| reachable_step s now e s' :
    reachable s → handle now s e = Some s' → reachable s'.

(** *** The result view *)

(** [Math.round((result.score / result.total) * 100)]: the quotient is
    rounded to a double, then the product, and [Math.round] is applied to
    that double. *)
Definition percentage (r : QuizResult) : number :=
  Math_round (Number_mul (Number_div (Number_of_Z (score r)) (Number_of_Z (total r)))
                         (Number_of_Z 100)).

(** [percentage >= 60]. *)
Definition isGood (r : QuizResult) : bool := Number_le (Number_of_Z 60) (percentage r).

(** The percentage in the words of the specification,
    round(100 * score / total), in exact arithmetic. *)
Definition spec_percentage (r : QuizResult) : Z :=
  round_half_up (inject_Z (100 * score r) / inject_Z (total r))%Q.

(** 100 * score / total lies exactly halfway between two integers. *)
Definition halfway (r : QuizResult) : Prop :=
  (200 * score r + total r) mod (2 * total r) = 0.

(** The product as the Standard Library's binary64 computes it. *)
Definition binary64_product (score total : Z) : spec_float :=
  SFmul 53 1024 (SFdiv 53 1024 (binary64_of_Z score) (binary64_of_Z total))
        (binary64_of_Z 100).

(** *** Observers of a run *)

(** A run that also records when the current quiz started: the time of the
    latest turn that took the page from [Setup] to [Quiz].  The component
    itself keeps no such value. *)
Fixpoint run_started (started : option Z) (s : State) (tr : list (Z * Event))
    : option (State * option Z) :=
  match tr with
  | [] => Some (s, started)
  | (now, e) :: tr' =>
      match handle now s e with
      | Some s' =>
          run_started (match step s, step s' with
                       | Setup, Quiz => Some now
                       | _, _ => started
                       end) s' tr'
      | None => None
      end
  end.

(** Every question has an entry in [answers]. *)
Definition recorded (qz : QuizData) (s : State) : Prop :=
  ∀ q, q ∈ questions qz → is_Some (answers s !! id q).

(** Every entry of [answers] belongs to a question. *)
Definition keyed (qz : QuizData) (s : State) : Prop :=
  ∀ k, is_Some (answers s !! k) → k ∈ id <$> questions qz.

(** What holds of every reachable state: at most one request is in flight
    and the page is loading and in the matching step while it is; there is
    a quiz exactly outside [Setup], its answers belong to its questions and
    the index is inside it; once submitted, every question has an entry. *)
Definition invariant (s : State) : Prop :=
  (inflight s = []
   ∨ (∃ b, inflight s = [Generate b] ∧ step s = Setup ∧ loading s = true)
   ∨ (∃ b qz, inflight s = [Submit b] ∧ step s = Quiz ∧ loading s = true
              ∧ quiz s = Some qz ∧ recorded qz s))
  ∧ (step s = Setup → quiz s = None)
  ∧ (step s ≠ Setup →
       ∃ qz, quiz s = Some qz ∧ keyed qz s ∧ 0 <= currentQ s < len (questions qz))
  ∧ (step s = Result → ∃ qz, quiz s = Some qz ∧ recorded qz s).

(** The identifiers of the questions of a quiz, without repetition. *)
Definition question_ids (qz : QuizData) : gset Z := list_to_set (id <$> questions qz).

(** *** Sample sessions *)

Definition sample_question (i : Z) : QuizQuestion :=
  {| id := i; question := "What is x?"; options := ["A"; "B"; "C"; "D"] |}.

Definition sample_quiz : QuizData :=
  {| quiz_id := "quiz-1"; difficulty := "medium";
     questions := sample_question <$> [1; 2; 3; 4; 5] |}.

(** A generated quiz in which two questions carry the same id. *)
Definition repeated_id_quiz : QuizData :=
  {| quiz_id := "quiz-2"; difficulty := "easy";
     questions := [sample_question 1; sample_question 1] |}.

Definition sample_result : QuizResult :=
  {| score := 4; total := 5; xp_gained := 40; new_difficulty := "medium";
     confidence_score := 7 # 10; learning_momentum := 1 # 10; weak_topics := [] |}.

(** The page is opened at time 0 with subject and chapter in the URL. *)
Definition sample_mount : State :=
  mount (Some "average_student") "math" "ch1_linear_equations" 0.

(** The student starts a quiz after a minute and answers A, B, C, A, D. *)
Definition sample_answering : list (Z * Event) :=
  [(59000, ClickStart); (60000, GenerateSettled 0 (Resolved (Some sample_quiz)));
   (65000, ClickOption 0); (66000, ClickNext);
   (70000, ClickOption 1); (71000, ClickNext);
   (75000, ClickOption 2); (76000, ClickNext);
   (80000, ClickOption 0); (81000, ClickNext);
   (85000, ClickOption 3)].

Definition sample_submitting : list (Z * Event) :=
  sample_answering ++ [(90000, ClickSubmit)].

Definition sample_submitted : list (Z * Event) :=
  sample_submitting ++ [(91000, SubmitSettled 0 (Resolved (Some sample_result)))].

Definition repeated_id_result : QuizResult :=
  {| score := 1; total := 2; xp_gained := 10; new_difficulty := "easy";
     confidence_score := 5 # 10; learning_momentum := 0; weak_topics := [] |}.

(** A session on [repeated_id_quiz]: one click answers both questions. *)
Definition repeated_id_session : list (Z * Event) :=
  [(1000, ClickStart); (2000, GenerateSettled 0 (Resolved (Some repeated_id_quiz)));
   (3000, ClickOption 0); (4000, ClickNext); (5000, ClickSubmit);
   (6000, SubmitSettled 0 (Resolved (Some repeated_id_result)))].

(** The continuation of a generation request that resolved with at least
    one question. *)
Definition generation_success (e : Event) : Prop :=
  ∃ k qz, e = GenerateSettled k (Resolved (Some qz)) ∧ questions qz ≠ [].

(** A result just under three fifths: 43 of 72 is 59.72 percent. *)
Definition near_miss_result : QuizResult :=
  {| score := 43; total := 72; xp_gained := 430; new_difficulty := "medium";
     confidence_score := 6 # 10; learning_momentum := 1 # 10; weak_topics := [] |}.

(** A result of exactly 57.5 percent: 23 of 40. *)
Definition halfway_result : QuizResult :=
  {| score := 23; total := 40; xp_gained := 230; new_difficulty := "medium";
     confidence_score := 6 # 10; learning_momentum := 1 # 10; weak_topics := [] |}.

(** The state after a run from [sample_mount] ([sample_mount] itself if
    the run is not possible). *)
Definition after (tr : list (Z * Event)) : State :=
  default sample_mount (run sample_mount tr).

(** *** More of what is rendered *)

Definition submit_failed_text : string :=
  "Failed to submit quiz. Your answers were not saved.".

(** The error banner: [{error && ...}] stands in the setup view and in no
    other. *)
Definition banner (s : State) : option string :=
  match step s, error s with
  | Setup, Some e => if truthy e then Some e else None
  | _, _ => None
  end.

(** The width of the progress bar of the quiz view, in percent. *)
Definition progress_width (qz : QuizData) (s : State) : Q :=
  ((inject_Z (currentQ s + 1) / inject_Z (len (questions qz))) * 100)%Q.

(** Every entry of a map of answers is an option of a question with that
    id. *)
Definition offered (qz : QuizData) (m : gmap Z string) : Prop :=
  ∀ k v, m !! k = Some v → ∃ q, q ∈ questions qz ∧ id q = k ∧ v ∈ options q.

(** What a request in flight looks like from the state of the page. *)
Definition well_formed_request (s : State) (r : Request) : Prop :=
  match r with
  | Generate b =>
      num_questions b = 5 ∧ gen_subject b ≠ "" ∧ gen_chapter_id b ≠ ""
      ∧ gen_student_id b = student s
  | Submit b =>
      ∃ qz, quiz s = Some qz ∧ sub_quiz_id b = quiz_id qz
            ∧ sub_student_id b = student s ∧ offered qz (sub_answers b)
            ∧ ∀ q, q ∈ questions qz →
                ∃ v, sub_answers b !! id q = Some v ∧ v ≠ ""
  end.

(** Loading, requests and errors go together. *)
Definition invariant_loading (s : State) : Prop :=
  (loading s = true → inflight s ≠ [])
  ∧ (inflight s ≠ [] → loading s = true ∧ error s = None)
  ∧ (step s = Result → error s = None)
  ∧ (step s = Setup → error s ≠ Some submit_failed_text).

(** Requests are well formed and answers are offered options. *)
Definition invariant_requests (s : State) : Prop :=
  Forall (well_formed_request s) (inflight s)
  ∧ (step s ≠ Setup → ∀ qz, quiz s = Some qz → offered qz (answers s)).

(** A page on which two subjects have been fetched. *)
Definition sample_subjects : list SubjectOption :=
  [{| subject_id := "math"; subject_name := "Mathematics";
      chapters := [{| chapter_id := "ch1_linear_equations";
                      chapter_name := "Linear Equations" |}] |};
   {| subject_id := "science"; subject_name := "Science";
      chapters := [{| chapter_id := "ch1_crop_production";
                      chapter_name := "Crop Production" |}] |}].

End QuizPage.

(** ** The learning page

    The state cells of the chat, [handleSendMessage] and the controls of the
    form; then the session clock, the label of the chapter and the effect
    that seeds an empty history with a greeting.  The rendering of messages
    is left out. *)

Module LearningPage.

Import Js.

Inductive Role := user | assistant.

#[global] Instance Role_eq_dec : EqDecision Role.
Proof. solve_decision. Defined.

Record Message := {
  id : string;
  role : Role;
  content : string;
  timestamp : Z;
  difficulty : option string;
  sources : option (list string)
}.

Record ChatResponse := {
  answer : string;
  answer_sources : list string;
  student_xp : Z;
  answer_difficulty : string
}.

Record Student := { student_id : string; student_name : string }.

(** Body of the POST to /ask, as [chatService.ask] builds it. *)
Record AskBody := {
  ask_student_id : string;
  ask_question : string;
  ask_subject : string;
  ask_chapter_id : string
}.

(** One activation of [handleSendMessage] from its [try] block on: the
    request it sent, whether its [await] has resumed, whether its
    [setTimeout] is still armed, and the flag of its [AbortController].
    Nothing reads [aborted]: the controller's signal is handed to no one. *)
Record Call := {
  body : AskBody;
  settled : bool;
  timer : bool;
  aborted : bool
}.

Record State := {
  student : option Student;
  subjectId : option string;
  chapterId : option string;
  messages : list Message;
  input : string;
  isLoading : bool;
  error : option string;
  calls : list Call;
  crashed : bool
}.

Definition setMessages (f : list Message → list Message) (s : State) : State :=
  {| student := student s; subjectId := subjectId s; chapterId := chapterId s;
     messages := f (messages s); input := input s; isLoading := isLoading s;
     error := error s; calls := calls s;
     crashed := crashed s |}.

Definition setInput (v : string) (s : State) : State :=
  {| student := student s; subjectId := subjectId s; chapterId := chapterId s;
     messages := messages s; input := v; isLoading := isLoading s;
     error := error s; calls := calls s;
     crashed := crashed s |}.

Definition setIsLoading (v : bool) (s : State) : State :=
  {| student := student s; subjectId := subjectId s; chapterId := chapterId s;
     messages := messages s; input := input s; isLoading := v;
     error := error s; calls := calls s;
     crashed := crashed s |}.

Definition setError (v : option string) (s : State) : State :=
  {| student := student s; subjectId := subjectId s; chapterId := chapterId s;
     messages := messages s; input := input s; isLoading := isLoading s;
     error := v; calls := calls s;
     crashed := crashed s |}.

Definition setCalls (f : list Call → list Call) (s : State) : State :=
  {| student := student s; subjectId := subjectId s; chapterId := chapterId s;
     messages := messages s; input := input s; isLoading := isLoading s;
     error := error s; calls := f (calls s);
     crashed := crashed s |}.

(** The render of the page has thrown: the error boundary around the routes
    takes the page down, with its state. *)
Definition setCrashed (s : State) : State :=
  {| student := student s; subjectId := subjectId s; chapterId := chapterId s;
     messages := messages s; input := input s; isLoading := isLoading s;
     error := error s; calls := calls s; crashed := true |}.

Definition timeout_text : string :=
  "⏱️ The AI is taking too long to respond. Please try a simpler question.".

Definition connection_text : string :=
  "I'm having trouble connecting. Please try again.".

Definition timeout_warning : string := "Request timed out. The AI model may be busy.".

Definition connection_warning : string := "Connection error.".

(** The delay of [setTimeout(() => controller.abort(), 15000)]. *)
Definition frontend_timeout : Z := 15000.

(** [handleSendMessage] up to its [await]; [now] is [Date.now()]. *)
Definition handleSendMessage (now : Z) (s : State) : State :=
  match student s, subjectId s, chapterId s with
  | Some stu, Some sid, Some cid =>
      if negb (truthy (trim (input s))) || negb (truthy sid) || negb (truthy cid) || isLoading s
      then s
      else
        let userMsg := {| id := pretty now; role := user; content := input s;
                          timestamp := now; difficulty := None; sources := None |} in
        let call := {| body := {| ask_student_id := student_id stu;
                                  ask_question := content userMsg;
                                  ask_subject := sid; ask_chapter_id := cid |};
                       settled := false; timer := true; aborted := false |} in
        setCalls (λ l, l ++ [call])
          (setError None (setIsLoading true (setInput ""
             (setMessages (λ prev, prev ++ [userMsg]) s))))
  | _, _, _ => s
  end.

(** The callback of the timer of call [k]: [controller.abort()]. *)
Definition abort (c : Call) : Call :=
  {| body := body c; settled := settled c; timer := false; aborted := true |}.

(** [clearTimeout(timeoutId)]. *)
Definition clearTimeout (c : Call) : Call :=
  {| body := body c; settled := settled c; timer := false; aborted := aborted c |}.

Definition settle (c : Call) : Call :=
  {| body := body c; settled := true; timer := timer c; aborted := aborted c |}.

(** The [catch] block. *)
Definition handleSendMessage_catch (now : Z) (err : Error) (s : State) : State :=
  let isTimeout := String.eqb (name err) "AbortError" || mentions_timeout err in
  let errorMsg := if isTimeout then timeout_text else connection_text in
  setMessages (λ prev, prev ++ [{| id := pretty now; role := assistant; content := errorMsg;
                                   timestamp := now; difficulty := None; sources := None |}])
    (setError (Some (if isTimeout then timeout_warning else connection_warning)) s).

(** [handleSendMessage] of call [k] from its [await] on.

    The assistant's message is built inside the function handed to
    [setMessages], which React runs when it renders, after the [try] block
    is left.  With a body that is [null], reading [response.answer] there
    throws: nothing is caught by the [catch] block, nothing is appended, and
    the render of the page fails. *)
Definition handleSendMessage_resume (now : Z) (k : nat)
    (o : Outcome (option ChatResponse)) (s : State) : State :=
  let s := setCalls (alter settle k) s in
  setIsLoading false
    match o with
    | Resolved data =>
        let s := setCalls (alter clearTimeout k) s in
        match data with
        | Some response =>
            setMessages (λ prev, prev ++ [{| id := pretty (now + 1); role := assistant;
                                             content := answer response; timestamp := now;
                                             difficulty := Some (answer_difficulty response);
                                             sources := Some (answer_sources response) |}]) s
        | None => setCrashed s
        end
    | Rejected err => handleSendMessage_catch now err s
    end.

Definition quickQuestions : list string :=
  ["Explain the key concepts"; "Give me an example"; "What are the applications?"].

Inductive Event :=
| ChangeInput (v : string)
| ClickQuick (i : nat)
| SubmitForm
| TimerFired (k : nat)
| AskSettled (k : nat) (o : Outcome (option ChatResponse)).

(** One turn of the event loop at wall-clock time [now]; [None] when the
    event cannot occur in [s].  Of a page that is down nothing is left that
    could be clicked or that a timer or a continuation could change. *)
Definition handle (now : Z) (s : State) (e : Event) : option State :=
  if crashed s then None else
  match e with
  | ChangeInput v => if isLoading s then None else Some (setInput v s)
  | ClickQuick i =>
      if len (messages s) <=? 1
      then match quickQuestions !! i with
           | Some q => Some (setInput q s)
           | None => None
           end
      else None
  | SubmitForm =>
      if negb (truthy (trim (input s))) || isLoading s then None
      else Some (handleSendMessage now s)
  | TimerFired k =>
      match calls s !! k with
      | Some c => if timer c then Some (setCalls (alter abort k) s) else None
      | None => None
      end
  | AskSettled k o =>
      match calls s !! k with
      | Some c => if settled c then None else Some (handleSendMessage_resume now k o s)
      | None => None
      end
  end.

(** *** The transport

    [api] is an axios instance created with [timeout: 120000] and
    [chatService.ask] passes no other option to [api.post], so the only
    deadline of the request is axios's own: past it the promise is rejected
    with an error whose message names the timeout. *)

Definition transport_timeout : Z := 120000.

Definition transport_timeout_error : Error :=
  {| name := "AxiosError"; message := Some "timeout of 120000ms exceeded" |}.

(** The backend as seen from one request: how long it takes, and what it
    answers (or how the connection fails) if it is waited for. *)
Record Backend := {
  delay : Z;
  reply : Outcome (option ChatResponse)
}.

(** When and how [chatService.ask] settles. *)
Definition chatService_ask (b : Backend) : Z * Outcome (option ChatResponse) :=
  if transport_timeout <=? delay b
  then (transport_timeout, Rejected transport_timeout_error)
  else (delay b, reply b).

(** One whole exchange started at time [t0] by submitting the form: the
    synchronous part, then the timer if its 15000ms pass before the request
    settles, then the continuation. *)
Definition exchange (t0 : Z) (b : Backend) (s : State) : option State :=
  let k := length (calls s) in
  let '(d, o) := chatService_ask b in
  s1 ← handle t0 s SubmitForm;
  s2 ← (if frontend_timeout <=? d then handle (t0 + frontend_timeout) s1 (TimerFired k)
        else Some s1);
  handle (t0 + d) s2 (AskSettled k o).

(** The messages of a role. *)
Definition by_role (r : Role) (l : list Message) : list Message :=
  filter (λ m, role m = r) l.

(** The page is up and the guard of [handleSendMessage] passes. *)
Definition accepted (s : State) : Prop :=
  crashed s = false
  ∧ truthy (trim (input s)) = true ∧ isLoading s = false
  ∧ (∃ stu, student s = Some stu)
  ∧ (∃ sid, subjectId s = Some sid ∧ truthy sid = true)
  ∧ (∃ cid, chapterId s = Some cid ∧ truthy cid = true).

(** Request [b] is one that [handleSendMessage] makes on the page [s]: its
    question is not blank, and it is made for the student, the subject and
    the chapter of the page. *)
Definition sent_for (s : State) (b : AskBody) : Prop :=
  truthy (trim (ask_question b)) = true
  ∧ (∃ stu, student s = Some stu ∧ ask_student_id b = student_id stu)
  ∧ subjectId s = Some (ask_subject b) ∧ truthy (ask_subject b) = true
  ∧ chapterId s = Some (ask_chapter_id b) ∧ truthy (ask_chapter_id b) = true.

(** *** The shape of the history *)

(** States the page can be in when it was once in [s0]. *)
Inductive reachable_from (s0 : State) : State → Prop :=
| reachable_here : reachable_from s0 s0
| reachable_next s now e s' :
    reachable_from s0 s → handle now s e = Some s' → reachable_from s0 s'.





(** *** Sample exchanges *)

(** The student has typed the first quick question into an empty chat. *)
Definition sample_chat : State :=
  {| student := Some {| student_id := "average_student"; student_name := "Arjun" |};
     subjectId := Some "math"; chapterId := Some "ch1_linear_equations";
     messages := []; input := "Explain the key concepts";
     isLoading := false; error := None; calls := []; crashed := false |}.

Definition sample_response : ChatResponse :=
  {| answer := "A linear equation has the form ax + b = 0.";
     answer_sources := ["ch1_linear_equations"]; student_xp := 485;
     answer_difficulty := "medium" |}.

(** A backend that answers well, after twenty seconds. *)
Definition slow_backend : Backend :=
  {| delay := 20000; reply := Resolved (Some sample_response) |}.

(** A backend that answers well, after two seconds. *)
Definition quick_backend : Backend :=
  {| delay := 2000; reply := Resolved (Some sample_response) |}.


(** *** The session clock *)

(** [s.padStart(n, pad)] for a pad of one character. *)
Fixpoint fill (k : nat) (pad : ascii) (s : string) : string :=
  match k with
  | O => s
  | S k' => String pad (fill k' pad s)
  end.

Definition padStart (n : nat) (pad : ascii) (s : string) : string :=
  fill (n - String.length s) pad s.

(** The clock of the header; [s] counts the ticks of the one-second timer,
    which starts at 0 and adds 1. *)
Definition formatTime (s : Z) : string :=
  pretty (s / 60) +:+ ":" +:+ padStart 2 "0" (pretty (Z.rem s 60)).

(** Reading a clock back: the digits before and after the colon. *)
Definition digit_value (c : ascii) : Z := Z.of_nat (nat_of_ascii c) - 48.

Fixpoint read_digits (acc : Z) (s : string) : Z * string :=
  match s with
  | String c s' =>
      if (48 <=? nat_of_ascii c)%nat && (nat_of_ascii c <=? 57)%nat
      then read_digits (10 * acc + digit_value c) s'
      else (acc, s)
  | EmptyString => (acc, s)
  end.

Definition read_clock (s : string) : option Z :=
  let '(m, rest) := read_digits 0 s in
  match rest with
  | String ":" rest' =>
      let '(sec, rest'') := read_digits 0 rest' in
      match rest'' with
      | EmptyString => Some (60 * m + sec)
      | _ => None
      end
  | _ => None
  end.

(** *** The greeting *)

Definition is_word (c : ascii) : bool :=
  let n := nat_of_ascii c in
  ((48 <=? n) && (n <=? 57) || (65 <=? n) && (n <=? 90)
   || (97 <=? n) && (n <=? 122) || (n =? 95))%nat.

Definition is_digit (c : ascii) : bool :=
  let n := nat_of_ascii c in ((48 <=? n) && (n <=? 57))%nat.

(** [replace(/_/g, ' ')]. *)
Fixpoint underscores_to_spaces (s : string) : string :=
  match s with
  | String c s' => String (if Ascii.eqb c "_" then " "%char else c) (underscores_to_spaces s')
  | EmptyString => EmptyString
  end.

(** The longest prefix of characters in a class, dropped. *)
Fixpoint skip (p : ascii → bool) (s : string) : string :=
  match s with
  | String c s' => if p c then skip p s' else s
  | EmptyString => EmptyString
  end.

(** [/ch\d+\s*/i] matched at the head of [s]: what follows the match. *)
Definition match_ch (s : string) : option string :=
  match s with
  | String c (String h (String d rest)) =>
      if (Ascii.eqb c "c" || Ascii.eqb c "C") && (Ascii.eqb h "h" || Ascii.eqb h "H")
         && is_digit d
      then Some (trimStart (skip is_digit rest))
      else None
  | _ => None
  end.

(** [replace(/\bch\d+\s*/i, '')]: the leftmost match is removed;
    [after_word] says whether the character before is a word character, in
    which case no word starts here. *)
Fixpoint strip_chapter_number (after_word : bool) (s : string) : string :=
  match s with
  | String c s' =>
      match (if after_word then None else match_ch s) with
      | Some rest => rest
      | None => String c (strip_chapter_number (is_word c) s')
      end
  | EmptyString => EmptyString
  end.

(** [chapterId?.replace(/_/g, ' ').replace(/\bch\d+\s*/i, '')], as it is
    printed by a template. *)
Definition chapterDisplay (chapter : option string) : string :=
  match chapter with
  | Some c => strip_chapter_number false (underscores_to_spaces c)
  | None => "undefined"
  end.

Definition greeting (now : Z) (stu : Student) (chapter : option string) : Message :=
  {| id := "init"; role := assistant;
     content := "Hello " +:+ student_name stu +:+ "! 👋

I'm your AI tutor for **" +:+ chapterDisplay chapter +:+ "**. I'll adapt my explanations to your level.

What would you like to learn?";
     timestamp := now; difficulty := None; sources := None |}.

(** The effect that runs after the first render and whenever the student
    or the chapter changes. *)
Definition greetingEffect (now : Z) (s : State) : State :=
  match student s with
  | Some stu =>
      if len (messages s) =? 0
      then setMessages (λ _, [greeting now stu (chapterId s)]) s
      else s
  | None => s
  end.

(** The sample chat once greeted, the first quick question typed in. *)
Definition greeted_chat : State :=
  setInput "Explain the key concepts"
    (greetingEffect 500 (setInput "" sample_chat)).

(** The page right after it is mounted, before its effects have run. *)
Definition mount (stu : option Student) (subject chapter : option string) : State :=
  {| student := stu; subjectId := subject; chapterId := chapter;
     messages := []; input := ""; isLoading := false; error := None; calls := [];
     crashed := false |}.

End LearningPage.

(** ** The stores

    Each zustand store is a record of its data fields; [set] with a partial
    object replaces the fields it names and keeps the others. *)

Module QuizStore.

Record State := {
  currentQuizId : option string;
  currentQuestionIndex : Z;
  answers : gmap string string;
  isCompleted : bool;
  score : Z
}.

Definition initial : State :=
  {| currentQuizId := None; currentQuestionIndex := 0; answers := ∅;
     isCompleted := false; score := 0 |}.

Definition startQuiz (quizId : string) (st : State) : State :=
  {| currentQuizId := Some quizId; currentQuestionIndex := 0; answers := ∅;
     isCompleted := false; score := 0 |}.

Definition submitAnswer (questionId answer : string) (st : State) : State :=
  {| currentQuizId := currentQuizId st;
     currentQuestionIndex := currentQuestionIndex st;
     answers := <[questionId := answer]> (answers st);
     isCompleted := isCompleted st; score := score st |}.

Definition completeQuiz (sc : Z) (st : State) : State :=
  {| currentQuizId := currentQuizId st;
     currentQuestionIndex := currentQuestionIndex st;
     answers := answers st; isCompleted := true; score := sc |}.

Definition resetQuiz (st : State) : State := initial.

Inductive Action :=
| StartQuiz (quizId : string)
| SubmitAnswer (questionId answer : string)
| CompleteQuiz (sc : Z)
| ResetQuiz.

Definition apply (st : State) (a : Action) : State :=
  match a with
  | StartQuiz q => startQuiz q st
  | SubmitAnswer k v => submitAnswer k v st
  | CompleteQuiz sc => completeQuiz sc st
  | ResetQuiz => resetQuiz st
  end.

(** The actions of a list, the first one first. *)
Definition run (st : State) (acts : list Action) : State := foldl apply st acts.

(** The answer of a question in a list of actions none of which starts or
    resets: the last one submitted, if any. *)
Definition last_answer (k : string) (acts : list Action) : option string :=
  foldl (λ o a, match a with
                | SubmitAnswer k' v => if String.eqb k' k then Some v else o
                | _ => o
                end) None acts.

Definition keeps_quiz (a : Action) : Prop :=
  match a with
  | StartQuiz _ | ResetQuiz => False
  | _ => True
  end.

End QuizStore.

Module SessionStore.

Import Js.

Record State := { studyTime : number; xp : number; streak : number }.

Definition initial : State :=
  {| studyTime := Number_of_Z 0; xp := Number_of_Z 0; streak := Number_of_Z 0 |}.

Definition addXP (amount : number) (st : State) : State :=
  {| studyTime := studyTime st; xp := Number_add (xp st) amount; streak := streak st |}.

Definition incrementStudyTime (minutes : number) (st : State) : State :=
  {| studyTime := Number_add (studyTime st) minutes; xp := xp st; streak := streak st |}.

Inductive Action :=
| AddXP (amount : number)
| IncrementStudyTime (minutes : number).

Definition apply (st : State) (a : Action) : State :=
  match a with
  | AddXP n => addXP n st
  | IncrementStudyTime n => incrementStudyTime n st
  end.

Definition run (st : State) (acts : list Action) : State := foldl apply st acts.

(** An integer as a number, for the integers that are doubles. *)
Definition whole (n : Z) : number := Finite (inject_Z n).

(** Actions with whole amounts: [inl n] adds [n] XP, [inr n] adds [n]
    minutes. *)
Definition whole_action (a : Z + Z) : Action :=
  match a with
  | inl n => AddXP (whole n)
  | inr n => IncrementStudyTime (whole n)
  end.

Definition amount (a : Z + Z) : Z := match a with inl n | inr n => n end.

Definition xp_of (a : Z + Z) : Z := match a with inl n => n | inr _ => 0 end.

Definition minutes_of (a : Z + Z) : Z := match a with inr n => n | inl _ => 0 end.

Definition total (f : Z + Z → Z) (acts : list (Z + Z)) : Z :=
  foldr (λ a n, f a + n) 0 acts.

(** A tenth, two tenths and three tenths, as the doubles nearest to them. *)
Definition tenths (k : Z) : number := to_number (k # 10).

End SessionStore.

Module AuthStore.

Record Student := {
  id : string;
  name : string;
  xp : option Z;
  level : option Z
}.

Record State := { student : option Student; isAuthenticated : bool }.

Definition initial : State := {| student := None; isAuthenticated := false |}.

Definition login (stu : Student) (st : State) : State :=
  {| student := Some stu; isAuthenticated := true |}.

Definition logout (st : State) : State :=
  {| student := None; isAuthenticated := false |}.

Inductive Action := Login (stu : Student) | Logout.

Definition apply (st : State) (a : Action) : State :=
  match a with
  | Login stu => login stu st
  | Logout => logout st
  end.

Definition run (st : State) (acts : list Action) : State := foldl apply st acts.

(** [AppLayout]: the sidebar and the header are rendered unless the user is
    not authenticated or the page is a public one. *)
Definition isPublicPage (pathname : string) : bool :=
  bool_decide (pathname ∈ ["/"; "/login"]).

Definition shows_navigation (st : State) (pathname : string) : bool :=
  negb (negb (isAuthenticated st) || isPublicPage pathname).

(** [Sidebar]: the width of the XP bar, in percent. *)
Definition xpPercent (st : State) : Z :=
  let xp0 := match student st with
             | Some stu => match xp stu with
                           | Some n => n    (* [n || 0] is [n], also for 0 *)
                           | None => 0
                           end
             | None => 0
             end in
  Z.min (Z.rem xp0 100) 100.

End AuthStore.

(** ** Small components *)

Module Widgets.

Import Js.

(** [ProgressBar]: the progress it draws and the label it prints. *)
Definition clampedProgress (progress : number) : number :=
  Math_min (Number_of_Z 100) (Math_max (Number_of_Z 0) progress).

Definition progressLabel (progress : number) : number :=
  Math_round (clampedProgress progress).

(** [DashboardPage]: the colour and the text of an average quiz score. *)
Inductive ScoreColour := slate | red | amber | emerald.

Definition scoreColour (avg_quiz_score : Q) : ScoreColour :=
  if Qle_bool 70 avg_quiz_score then emerald
  else if Qle_bool 40 avg_quiz_score then amber
  else if negb (Qle_bool avg_quiz_score 0) then red
  else slate.

(** [None] stands for the dash, [Some x] for x followed by a percent sign. *)
Definition scoreText (avg_quiz_score : Q) : option Q :=
  if negb (Qle_bool avg_quiz_score 0) then Some avg_quiz_score else None.

Definition colour_rank (c : ScoreColour) : Z :=
  match c with slate => 0 | red => 1 | amber => 2 | emerald => 3 end.

End Widgets.

(** ** The video library *)

Module VideoLibraryPage.

Import Js.

Record Video := {
  id : string;
  title : string;
  duration : string;
  thumbnail : string;
  description : string;
  subject : string;
  chapter_id : string;
  watched : bool
}.

(** The state cells, the timers that are armed (each with the video of its
    closure) and the POST requests in flight (likewise). *)
Record State := {
  videos : list Video;
  loading : bool;
  selectedSubject : string;
  searchQuery : string;
  watchingId : option string;
  fetching : bool;
  timers : list string;
  posts : list string
}.

(** At mount the effect has called [fetchVideos]. *)
Definition mount : State :=
  {| videos := []; loading := true; selectedSubject := "all"; searchQuery := "";
     watchingId := None; fetching := true; timers := []; posts := [] |}.

(** The letters A to Z made small: what [toLowerCase] does to a text of
    one-byte characters, for the examples. *)
Definition lower (c : ascii) : ascii :=
  let n := nat_of_ascii c in
  if ((65 <=? n) && (n <=? 90))%nat then ascii_of_nat (n + 32) else c.

Fixpoint ascii_toLowerCase (s : string) : string :=
  match s with
  | String c s' => String (lower c) (ascii_toLowerCase s')
  | EmptyString => EmptyString
  end.

(** [new Set(l)] spread into an array: the first occurrences, in order. *)
Fixpoint set_order (l : list string) : list string :=
  match l with
  | [] => []
  | x :: l' => x :: filter (λ y, y ≠ x) (set_order l')
  end.

Definition subjects (s : State) : list string :=
  "all" :: set_order (subject <$> videos s).

Definition in_subject (sel : string) (v : Video) : bool :=
  String.eqb sel "all" || String.eqb (subject v) sel.

Definition watchedCount (s : State) : Z := len (List.filter watched (videos s)).

Definition totalXpFromVideos (s : State) : Z := watchedCount s * 50.

(** [v.id === videoId ? { ...v, watched: true } : v]. *)
Definition mark (videoId : string) (v : Video) : Video :=
  if String.eqb (id v) videoId
  then {| id := id v; title := title v; duration := duration v;
          thumbnail := thumbnail v; description := description v;
          subject := subject v; chapter_id := chapter_id v; watched := true |}
  else v.

Inductive Event :=
| VideosSettled (o : Outcome (list Video))
| ChangeSearch (q : string)
| ClickSubject (i : nat)
| ClickWatch (i : nat)
| TimerFired (k : nat)
| WatchSettled (k : nat) (o : Outcome unit).

(** While the list is awaited the page is loading and has nothing armed
    or in flight; every timer and every POST is for a listed video. *)
Definition invariant (s : State) : Prop :=
  fetching s = loading s
  ∧ (loading s = true →
       videos s = [] ∧ timers s = [] ∧ posts s = [] ∧ watchingId s = None)
  ∧ ∀ vid, vid ∈ timers s ++ posts s → vid ∈ id <$> videos s.

Section Page.

(** [String.prototype.toLowerCase].  Which letters it makes small, and
    into what, is decided by the tables of Unicode that the engine carries;
    they are no part of this repository, and the page is modelled for any
    function in their place. *)
Variable toLowerCase : string → string.

Definition matches (q : string) (v : Video) : bool :=
  negb (truthy q)
  || includes (toLowerCase q) (toLowerCase (title v))
  || includes (toLowerCase q) (toLowerCase (description v)).

Definition filtered (s : State) : list Video :=
  List.filter (matches (searchQuery s))
    (List.filter (in_subject (selectedSubject s)) (videos s)).

(** One turn of the event loop; [None] when the event cannot occur. *)
Definition handle (s : State) (e : Event) : option State :=
  match e with
  | VideosSettled o =>
      if fetching s
      then Some {| videos := match o with Resolved data => data | Rejected _ => videos s end;
                   loading := false; selectedSubject := selectedSubject s;
                   searchQuery := searchQuery s; watchingId := watchingId s;
                   fetching := false; timers := timers s; posts := posts s |}
      else None
  | ChangeSearch q =>
      if loading s then None
      else Some {| videos := videos s; loading := loading s;
                   selectedSubject := selectedSubject s; searchQuery := q;
                   watchingId := watchingId s; fetching := fetching s;
                   timers := timers s; posts := posts s |}
  | ClickSubject i =>
      if loading s then None
      else match subjects s !! i with
           | Some subj =>
               Some {| videos := videos s; loading := loading s;
                       selectedSubject := subj; searchQuery := searchQuery s;
                       watchingId := watchingId s; fetching := fetching s;
                       timers := timers s; posts := posts s |}
           | None => None
           end
  | ClickWatch i =>
      if loading s then None
      else match filtered s !! i with
           | Some video =>
               if watched video || bool_decide (watchingId s = Some (id video)) then None
               else Some {| videos := videos s; loading := loading s;
                            selectedSubject := selectedSubject s;
                            searchQuery := searchQuery s;
                            watchingId := Some (id video); fetching := fetching s;
                            timers := timers s ++ [id video]; posts := posts s |}
           | None => None
           end
  | TimerFired k =>
      match timers s !! k with
      | Some videoId =>
          Some {| videos := videos s; loading := loading s;
                  selectedSubject := selectedSubject s; searchQuery := searchQuery s;
                  watchingId := watchingId s; fetching := fetching s;
                  timers := delete k (timers s); posts := posts s ++ [videoId] |}
      | None => None
      end
  | WatchSettled k o =>
      match posts s !! k with
      | Some videoId =>
          Some {| videos := match o with
                            | Resolved _ => mark videoId <$> videos s
                            | Rejected _ => videos s
                            end;
                  loading := loading s; selectedSubject := selectedSubject s;
                  searchQuery := searchQuery s; watchingId := None;
                  fetching := fetching s; timers := timers s;
                  posts := delete k (posts s) |}
      | None => None
      end
  end.

Inductive reachable : State → Prop :=
| reachable_mount : reachable mount
| reachable_step s e s' : reachable s → handle s e = Some s' → reachable s'.

Fixpoint run (s : State) (tr : list Event) : option State :=
  match tr with
  | [] => Some s
  | e :: tr' => match handle s e with Some s' => run s' tr' | None => None end
  end.

End Page.

(** Two videos of a sample library. *)
Definition sample_videos : list Video :=
  [{| id := "v1"; title := "Linear Equations"; duration := "8:20"; thumbnail := "M";
      description := "Solving for x"; subject := "math"; chapter_id := "ch1";
      watched := false |};
   {| id := "v2"; title := "Crop Production"; duration := "6:05"; thumbnail := "S";
      description := "Sowing and harvest"; subject := "science"; chapter_id := "ch1";
      watched := true |}].

Definition sample_library : State :=
  default mount (run ascii_toLowerCase mount [VideosSettled (Resolved sample_videos)]).

(** What happens next on the sample page. *)
Definition sample_run (tr : list Event) : State :=
  default mount (run ascii_toLowerCase sample_library tr).

End VideoLibraryPage.

(** ** The dashboard *)

Module DashboardPage.

Import Js.

Record StudentStats := {
  xp : Z;
  level : Z;
  difficulty : string;
  confidence : Q;
  momentum : Q;
  total_questions : Z;
  correct_answers : Z;
  accuracy : Q;
  videos_watched : Z
}.

Record Health := {
  ollama_active : bool;
  rag_index_loaded : bool;
  chroma_available : bool;
  rag_lessons : Z
}.

Record ChapterProgress := {
  subject : string;
  chapter_id : string;
  questions_asked : Z;
  quiz_attempts : Z;
  avg_quiz_score : Q
}.

Record State := {
  stats : option StudentStats;
  systemHealth : option Health;
  chapterProgress : list ChapterProgress;
  loading : bool;
  error : option string;
  fetching : bool
}.

(** At mount the effect starts [fetchData] if there is a student, and
    returns at once if there is none. *)
Definition mount (student_present : bool) : State :=
  {| stats := None; systemHealth := None; chapterProgress := [];
     loading := true; error := None; fetching := student_present |}.

(** The error of the earlier of two rejections; of the first one when they
    come together. *)
Definition pick (t : Z) (e : Error) (other : option (Z * Error)) : Error :=
  match other with
  | Some (t', e') => if t <=? t' then e else e'
  | None => e
  end.

Definition rejection {A} (p : Z * Outcome A) : option (Z * Error) :=
  match p.2 with
  | Rejected e => Some (p.1, e)
  | Resolved _ => None
  end.

(** The earlier of two rejections, with its time; the first one when they
    come together. *)
Definition earlier (x y : option (Z * Error)) : option (Z * Error) :=
  match x, y with
  | Some (t, _), Some (t', _) => if t <=? t' then x else y
  | Some _, None => x
  | None, _ => y
  end.

(** [Promise.all] of three requests, each given with the time at which it
    settles: resolved with the three results when all resolve, rejected
    with the error of the first rejection otherwise. *)
Definition Promise_all3 {A B C} (a : Z * Outcome A) (b : Z * Outcome B)
    (c : Z * Outcome C) : Outcome (A * B * C) :=
  match a.2 with
  | Rejected ea =>
      Rejected (pick a.1 ea (earlier (rejection b) (rejection c)))
  | Resolved x =>
      match b.2 with
      | Rejected eb => Rejected (pick b.1 eb (rejection c))
      | Resolved y =>
          match c.2 with
          | Rejected ec => Rejected ec
          | Resolved z => Resolved (x, y, z)
          end
      end
  end.

(** [fetchData] from its [await] on; a body may be [null]. *)
Definition fetchData_resume
    (o : Outcome (option StudentStats * option Health * option (list ChapterProgress)))
    (s : State) : State :=
  match o with
  | Resolved (statsData, healthData, progressData) =>
      {| stats := statsData; systemHealth := healthData;
         chapterProgress := default [] progressData;
         loading := false; error := error s; fetching := false |}
  | Rejected err =>
      {| stats := stats s; systemHealth := systemHealth s;
         chapterProgress := chapterProgress s; loading := false;
         error := Some (if mentions_timeout err
                        then "Server took too long. Try refreshing."
                        else "Could not load dashboard data.");
         fetching := false |}
  end.

(** The one event of the page: the three requests have settled. *)
Definition settle (a : Z * Outcome (option StudentStats)) (b : Z * Outcome (option Health))
    (c : Z * Outcome (option (list ChapterProgress))) (s : State) : option State :=
  if fetching s then Some (fetchData_resume (Promise_all3 a b c) s) else None.

End DashboardPage.

(** ** Properties of the numbers *)

Module NumberFacts.

Import Js.

Lemma pow2_pos k : (0 < 2 ^ k)%Q.
Proof. apply Qpower_0_lt. reflexivity. Qed.

Lemma pow2_plus a b : (2 ^ (a + b) == 2 ^ a * 2 ^ b)%Q.
Proof. apply Qpower_plus. discriminate. Qed.

Lemma pow2_le a b : a <= b → (2 ^ a <= 2 ^ b)%Q.
Proof. intros H. apply Qpower_le_compat_l; [exact H | discriminate]. Qed.

Lemma pow2_Z a : 0 <= a → (inject_Z (2 ^ a) == 2 ^ a)%Q.
Proof. intros H. apply (Zpower_Qpower 2 a H). Qed.

Lemma ilog2_le x : (0 < x)%Q → (2 ^ ilog2 x <= x)%Q.
Proof.
  intros Hx. unfold ilog2.
  set (a := Z.log2 (Qnum x)). set (b := Z.log2 (Zpos (Qden x))).
  destruct (Qle_bool (2 ^ (a - b)) x) eqn:E; [by apply Qle_bool_iff|].
  assert (0 < Qnum x) as Hn by (destruct x as [n d]; unfold Qlt in Hx; simpl in *; lia).
  assert (0 <= a) as Ha by apply Z.log2_nonneg.
  assert (0 <= b) as Hb by apply Z.log2_nonneg.
  destruct (Z.log2_spec (Qnum x) Hn) as [Hlo _]. fold a in Hlo.
  destruct (Z.log2_spec (Zpos (Qden x)) eq_refl) as [_ Hhi]. fold b in Hhi.
  replace (a - b - 1) with (a + - (b + 1)) by lia.
  rewrite pow2_plus, Qpower_opp, <- !pow2_Z by lia.
  replace (Z.succ b) with (b + 1) in Hhi by lia.
  assert (0 < 2 ^ (b + 1)) as Hp by (apply Z.pow_pos_nonneg; lia).
  destruct x as [n d]; simpl in *.
  unfold Qle, Qmult, Qinv, inject_Z; simpl.
  destruct (2 ^ (b + 1)) as [|p|p] eqn:Ep; try lia. simpl.
  rewrite Z.mul_1_r. nia.
Qed.

Lemma ilog2_lt x : (0 < x)%Q → (x < 2 ^ (ilog2 x + 1))%Q.
Proof.
  intros Hx. unfold ilog2.
  set (a := Z.log2 (Qnum x)). set (b := Z.log2 (Zpos (Qden x))).
  destruct (Qle_bool (2 ^ (a - b)) x) eqn:E.
  - assert (0 < Qnum x) as Hn by (destruct x as [n d]; unfold Qlt in Hx; simpl in *; lia).
    assert (0 <= a) as Ha by apply Z.log2_nonneg.
    assert (0 <= b) as Hb by apply Z.log2_nonneg.
    destruct (Z.log2_spec (Qnum x) Hn) as [_ Hhi]. fold a in Hhi.
    destruct (Z.log2_spec (Zpos (Qden x)) eq_refl) as [Hlo _]. fold b in Hlo.
    replace (a - b + 1) with ((a + 1) + - b) by lia.
    rewrite pow2_plus, Qpower_opp, <- !pow2_Z by lia.
    replace (Z.succ a) with (a + 1) in Hhi by lia.
    assert (0 < 2 ^ b) as Hp by (apply Z.pow_pos_nonneg; lia).
    destruct x as [n d]; simpl in *.
    unfold Qlt, Qmult, Qinv, inject_Z; simpl.
    destruct (2 ^ b) as [|p|p] eqn:Ep; try lia. simpl.
    rewrite Z.mul_1_r. nia.
  - replace (a - b - 1 + 1) with (a - b) by lia.
    apply Qnot_le_lt. intros H. apply Qle_bool_iff in H. congruence.
Qed.

Lemma round_half_even_error x :
  (Qabs (inject_Z (round_half_even x) - x) <= 1 # 2)%Q.
Proof.
  unfold round_half_even. pose proof (Qfloor_le x) as Hlo. pose proof (Qlt_floor x) as Hhi.
  rewrite inject_Z_plus in Hhi. change (inject_Z 1) with 1%Q in Hhi.
  apply Qabs_Qle_condition.
  destruct (Qcompare_spec (x - inject_Z (Qfloor x)) (1 # 2)) as [E | E | E].
  - destruct (Z.even (Qfloor x)); rewrite ?inject_Z_plus;
      change (inject_Z 1) with 1%Q; split; lra.
  - split; lra.
  - rewrite inject_Z_plus. change (inject_Z 1) with 1%Q. split; lra.
Qed.

Lemma round_half_even_int z x : (x == inject_Z z)%Q → round_half_even x = z.
Proof.
  intros Hx. unfold round_half_even.
  assert (Qfloor x = z) as -> by (rewrite Hx; apply Qfloor_Z).
  destruct (Qcompare_spec (x - inject_Z z) (1 # 2)) as [E | E | E]; [lra | done | lra].
Qed.

Lemma nearest_error x :
  (0 < x)%Q → -1074 <= ilog2 x - 52 →
  (Qabs (nearest x - x) <= x * (1 # 2 ^ 53))%Q.
Proof.
  intros Hx He. unfold nearest, ulp_exponent.
  destruct (Qeq_bool x 0) eqn:E0; [apply Qeq_bool_iff in E0; lra|].
  assert (Qabs x = x) as ->.
  { by destruct x as [[|p|p] d]. }
  rewrite Z.max_l by lia. rewrite Qred_correct.
  set (e := ilog2 x - 52). set (w := (2 ^ e)%Q).
  assert (0 < w)%Q as Hw by apply pow2_pos.
  assert (w * (4503599627370496 # 1) <= x)%Q as Hwx.
  { eapply Qle_trans; [|apply (ilog2_le x Hx)].
    replace (ilog2 x) with (e + 52) by (unfold e; lia).
    rewrite pow2_plus. fold w. apply Qle_refl. }
  set (m := inject_Z (round_half_even (x / w))).
  pose proof (round_half_even_error (x / w)) as Hm. fold m in Hm.
  assert (m * w - x == (m - x / w) * w)%Q as -> by (field; lra).
  rewrite Qabs_Qmult, (Qabs_pos w) by lra.
  eapply Qle_trans; [apply Qmult_le_compat_r; [exact Hm | lra]|].
  change (1 # 2 ^ 53)%Q with (1 # 9007199254740992)%Q. lra.
Qed.

Lemma pow2_lt_inv a b : (2 ^ a < 2 ^ b)%Q → a < b.
Proof.
  intros H. destruct (Z.lt_ge_cases a b) as [|Hge]; [done|].
  apply pow2_le in Hge. lra.
Qed.

Lemma Qred_inject_Z z : Qred (inject_Z z) = inject_Z z.
Proof.
  unfold Qred, inject_Z.
  pose proof (Z.ggcd_gcd z 1) as Hg. pose proof (Z.ggcd_correct_divisors z 1) as Hd.
  destruct (Z.ggcd z 1) as [g [r1 r2]]. simpl in *.
  rewrite Z.gcd_1_r in Hg. subst g. destruct Hd as [-> Hr2].
  assert (r2 = 1) as -> by lia. f_equal. lia.
Qed.

Lemma nearest_int x z :
  (x == inject_Z z)%Q → Z.abs z < 2 ^ 53 → nearest x = inject_Z z.
Proof.
  intros Hx Hz. unfold nearest.
  destruct (Qeq_bool x 0) eqn:E0.
  { apply Qeq_bool_iff in E0. rewrite E0 in Hx.
    assert (z = 0) as -> by (unfold Qeq in Hx; simpl in Hx; lia). reflexivity. }
  apply Qeq_bool_neq in E0.
  rewrite <- (Qred_inject_Z z). apply Qred_complete.
  set (e := ulp_exponent x).
  assert (e <= 0) as He.
  { unfold e, ulp_exponent. apply Z.max_lub; [|lia].
    assert (0 < Qabs x)%Q as Hpos.
    { pose proof (Qabs_nonneg x). destruct (Qeq_dec (Qabs x) 0) as [E|E]; [|lra].
      exfalso. apply E0. destruct x as [[|p|p] d]; try done. }
    pose proof (ilog2_le (Qabs x) Hpos) as Hl.
    assert (Qabs x < 2 ^ 53)%Q as Hlt.
    { rewrite Hx. change (Qabs (inject_Z z)) with (inject_Z (Z.abs z)).
      rewrite <- pow2_Z by lia. by rewrite <- Zlt_Qlt. }
    assert (ilog2 (Qabs x) < 53); [|lia].
    apply pow2_lt_inv. lra. }
  assert (/ 2 ^ e == inject_Z (2 ^ (- e)))%Q as Hinv.
  { rewrite <- Qpower_opp. symmetry. apply pow2_Z. lia. }
  rewrite (round_half_even_int (z * 2 ^ (- e))).
  - rewrite inject_Z_mult, <- Hinv. field. pose proof (pow2_pos e). lra.
  - unfold Qdiv. rewrite Hx, Hinv. by rewrite inject_Z_mult.
Qed.

Lemma to_number_int x z :
  (x == inject_Z z)%Q → Z.abs z < 2 ^ 53 → to_number x = Finite (inject_Z z).
Proof.
  intros Hx Hz. unfold to_number. rewrite (nearest_int x z Hx Hz).
  destruct (Qle_bool (2 ^ 1024) (Qabs (inject_Z z))) eqn:E; [|done].
  apply Qle_bool_iff in E. change (Qabs (inject_Z z)) with (inject_Z (Z.abs z)) in E.
  assert (inject_Z (Z.abs z) < 2 ^ 53)%Q as Hlt
    by (rewrite <- pow2_Z by lia; by rewrite <- Zlt_Qlt).
  pose proof (pow2_le 53 1024 ltac:(lia)). lra.
Qed.

Lemma to_number_near x :
  (0 < x)%Q → (2 ^ (-1022) <= x)%Q → (x <= 2 ^ 1023)%Q →
  ∃ y, to_number x = Finite y ∧ (Qabs (y - x) <= x * (1 # 2 ^ 53))%Q.
Proof.
  intros Hx Hlo Hhi.
  assert (-1074 <= ilog2 x - 52) as He.
  { pose proof (ilog2_lt x Hx). assert (-1022 < ilog2 x + 1); [|lia].
    apply pow2_lt_inv. lra. }
  pose proof (nearest_error x Hx He) as Hy.
  exists (nearest x). split; [|done]. unfold to_number.
  destruct (Qle_bool (2 ^ 1024) (Qabs (nearest x))) eqn:E; [|done].
  apply Qle_bool_iff in E. exfalso.
  apply Qabs_diff_Qle_condition in Hy.
  assert (2 ^ 1024 == 2 * 2 ^ 1023)%Q as E2 by (apply (pow2_plus 1 1023)).
  assert (Qabs (nearest x) <= x + x * (1 # 2 ^ 53))%Q.
  { apply Qabs_Qle_condition. change (1 # 2 ^ 53)%Q with (1 # 9007199254740992)%Q in *. lra. }
  change (1 # 2 ^ 53)%Q with (1 # 9007199254740992)%Q in *. lra.
Qed.

(** *** Rounding to an integer *)

Lemma round_half_up_ge (n : Z) (x : Q) :
  n <= round_half_up x ↔ (inject_Z n <= x + (1 # 2))%Q.
Proof.
  unfold round_half_up. split.
  - intros Hn. eapply Qle_trans; [|apply Qfloor_le]. by rewrite <- Zle_Qle.
  - intros Hx. rewrite <- (Qfloor_Z n). by apply Qfloor_resp_le.
Qed.

Lemma round_half_up_le (n : Z) (x : Q) :
  (x + (1 # 2) < inject_Z (n + 1))%Q → round_half_up x <= n.
Proof.
  intros Hx. destruct (Z.le_gt_cases (round_half_up x) n) as [|Hgt]; [done|].
  assert (n + 1 <= round_half_up x) as Hn by lia.
  apply round_half_up_ge in Hn. exfalso. eapply Qlt_not_le; eauto.
Qed.

Lemma round_half_up_between (x : Q) (lo hi : Z) :
  (inject_Z lo <= x)%Q → (x <= inject_Z hi)%Q → lo <= round_half_up x <= hi.
Proof.
  intros Hlo Hhi. split.
  - apply round_half_up_ge. lra.
  - apply round_half_up_le. rewrite inject_Z_plus. change (inject_Z 1) with 1%Q. lra.
Qed.

End NumberFacts.

(** ** Properties of the quiz page *)

Module QuizPageFacts.

Import Js QuizPage NumberFacts.

(** *** Array and truthiness helpers *)

Lemma at_index_Some {A : Type} (l : list A) (i : Z) (x : A) :
  at_index l i = Some x → 0 <= i < len l ∧ x ∈ l.
Proof.
  unfold at_index, len. destruct (Z.ltb_spec i 0) as [|Hi]; [done|].
  intros Hx. split.
  - apply lookup_lt_Some in Hx. lia.
  - by eapply list_elem_of_lookup_2.
Qed.

Lemma truthy_opt_is_Some (o : option string) : truthy_opt o = true → is_Some o.
Proof. destruct o; [eauto | done]. Qed.

Lemma len_nonzero {A : Type} (l : list A) : (len l =? 0) = false → 0 < len l.
Proof. unfold len. intros H%Z.eqb_neq. lia. Qed.

Lemma shown_question_Some s qz q :
  shown_question s = Some (qz, q) →
  step s = Quiz ∧ quiz s = Some qz ∧ 0 <= currentQ s < len (questions qz)
  ∧ q ∈ questions qz ∧ at_index (questions qz) (currentQ s) = Some q.
Proof.
  unfold shown_question. destruct (step s); try done.
  destruct (quiz s) as [qz'|]; try done.
  destruct (at_index (questions qz') (currentQ s)) as [q'|] eqn:Hq; try done.
  intros [= -> ->]. destruct (at_index_Some _ _ _ Hq) as [Hi Hin]. auto.
Qed.

Lemma allAnswered_recorded qz s : allAnswered qz s = true → recorded qz s.
Proof.
  unfold allAnswered, recorded. rewrite forallb_forall. intros H q Hq.
  apply truthy_opt_is_Some, H. by apply list_elem_of_In.
Qed.

(** *** The invariant *)

Lemma inflight_singleton (l : list Request) (k : nat) (r x : Request) :
  l = [x] → l !! k = Some r → k = 0%nat ∧ r = x ∧ delete k l = [].
Proof. intros -> H. destruct k as [|k]; simpl in H; [naive_solver | done]. Qed.

Lemma invariant_mount stu sp_subject sp_chapter now :
  invariant (mount stu sp_subject sp_chapter now).
Proof. unfold invariant; simpl. repeat split; auto; done. Qed.

Lemma idle_no_inflight s : invariant s → loading s = false → inflight s = [].
Proof.
  intros ([H | [(b & _ & _ & H) | (b & qz & _ & _ & H & _)]] & _) Hl; [done | congruence ..].
Qed.

Lemma invariant_handle now s e s' :
  invariant s → handle now s e = Some s' → invariant s'.
Proof.
  intros Hinv He. pose proof (idle_no_inflight s Hinv) as Hidle.
  destruct Hinv as (Hfl & Hset & Hqz & Hres).
  unfold recorded, keyed in *.
  destruct e; simpl in He.
  - (* SubjectsFetched *)
    injection He as <-. by repeat split.
  - (* ClickSubject *)
    destruct (step s) eqn:Hs; try done.
    destruct (subjectOptions s !! i); try done.
    injection He as <-. unfold invariant, recorded, keyed; simpl. rewrite Hs. by repeat split.
  - (* ClickChapter *)
    destruct (step s) eqn:Hs; try done.
    destruct (selectedSubject s) as [o|]; try done.
    destruct (chapters o !! i); try done.
    injection He as <-. unfold invariant, recorded, keyed; simpl. rewrite Hs. by repeat split.
  - (* ClickStart *)
    destruct (step s) eqn:Hs; try done.
    destruct (negb (truthy (subject s)) || negb (truthy (chapterId s))) eqn:Hg; try done.
    destruct (loading s) eqn:Hl; try done. simpl in He. injection He as <-.
    unfold handleStartQuiz. rewrite Hg. unfold invariant, recorded, keyed; simpl.
    rewrite Hidle, Hs by done. simpl. repeat split; try done.
    right; left. eauto.
  - (* GenerateSettled *)
    destruct (inflight s !! k) as [[b|b]|] eqn:Hk; try done.
    injection He as <-.
    destruct Hfl as [Hfl | [(b' & Hfl & Hs & _) | (b' & qz & Hfl & _)]].
    + by rewrite Hfl in Hk.
    + destruct (inflight_singleton _ _ _ _ Hfl Hk) as (_ & _ & Hdel).
      destruct o as [[qz|]|err]; simpl.
      * destruct (len (questions qz) =? 0) eqn:Hn; unfold invariant, recorded, keyed; simpl;
          rewrite Hdel.
        -- rewrite Hs. repeat split; auto; done.
        -- apply len_nonzero in Hn. repeat split; auto; try done.
           intros _. exists qz. repeat split; [|lia..].
           intros k' [? Hk']. by rewrite lookup_empty in Hk'.
      * unfold invariant, recorded, keyed; simpl. rewrite Hdel, Hs. repeat split; auto; done.
      * unfold invariant, recorded, keyed; simpl. rewrite Hdel, Hs. repeat split; auto; done.
    + destruct (inflight_singleton _ _ _ _ Hfl Hk) as (_ & [=] & _).
  - (* ClickOption *)
    destruct (shown_question s) as [[qz q]|] eqn:Hq; try done.
    destruct (options q !! i) as [opt|]; try done. injection He as <-.
    apply shown_question_Some in Hq as (Hs & Hquiz & Hi & Hin & _).
    assert (Hrec : ∀ qz', recorded qz' s → recorded qz' (handleSelectAnswer (id q) opt s)).
    { intros qz' H q' Hq'. simpl. destruct (decide (id q = id q')) as [->|Hne].
      - rewrite lookup_insert_eq. eauto.
      - rewrite lookup_insert_ne by done. by apply H. }
    unfold invariant, recorded, keyed; simpl. rewrite Hs. repeat split; try done.
    + destruct Hfl as [Hfl | [(b' & Hfl & Hs' & _) | (b' & qz' & Hfl & ? & ? & ? & ?)]];
        [by left | congruence |].
      right; right. exists b', qz'. repeat split; auto. by apply (Hrec qz').
    + intros _. exists qz. destruct Hqz as (qz' & Hquiz' & Hkey & _); [congruence|].
      assert (qz' = qz) as -> by congruence.
      repeat split; [done | | lia..].
      intros k' Hk'. destruct (decide (id q = k')) as [<-|Hne].
      * apply list_elem_of_fmap. eauto.
      * rewrite lookup_insert_ne in Hk' by done. by apply Hkey.
  - (* ClickPrevious *)
    destruct (shown_question s) as [[qz q]|] eqn:Hq; try done.
    destruct (Z.ltb_spec 0 (currentQ s)); try done. injection He as <-.
    apply shown_question_Some in Hq as (Hs & Hquiz & Hi & _).
    unfold invariant, recorded, keyed; simpl. rewrite Hs in *. repeat split; try done.
    intros _. exists qz. destruct Hqz as (qz' & Hquiz' & Hkey & _); [congruence|].
    assert (qz' = qz) as -> by congruence. repeat split; [done | done | lia..].
  - (* ClickNext *)
    destruct (shown_question s) as [[qz q]|] eqn:Hq; try done.
    unfold isLast in He. destruct (Z.eqb_spec (currentQ s) (len (questions qz) - 1)); try done.
    destruct (negb (truthy_opt (answers s !! id q))); try done. injection He as <-.
    apply shown_question_Some in Hq as (Hs & Hquiz & Hi & _).
    unfold invariant, recorded, keyed; simpl. rewrite Hs in *. repeat split; try done.
    intros _. exists qz. destruct Hqz as (qz' & Hquiz' & Hkey & _); [congruence|].
    assert (qz' = qz) as -> by congruence. repeat split; [done | done | lia..].
  - (* ClickSubmit *)
    destruct (shown_question s) as [[qz q]|] eqn:Hq; try done.
    destruct (negb (isLast qz s)); try done.
    destruct (allAnswered qz s) eqn:Hall; try done.
    destruct (loading s) eqn:Hl; try done. simpl in He. injection He as <-.
    apply shown_question_Some in Hq as (Hs & Hquiz & Hi & _).
    apply allAnswered_recorded in Hall.
    unfold handleSubmitQuiz. rewrite Hquiz. unfold invariant, recorded, keyed; simpl.
    rewrite Hidle, Hs by done. repeat split; try done.
    + right; right. eexists _, qz. repeat split; eauto.
    + intros _. apply Hqz. by rewrite Hs.
  - (* SubmitSettled *)
    destruct (inflight s !! k) as [[b|b]|] eqn:Hk; try done.
    injection He as <-.
    destruct Hfl as [Hfl | [(b' & Hfl & _) | (b' & qz & Hfl & Hs & _ & Hquiz & Hrec)]].
    + by rewrite Hfl in Hk.
    + destruct (inflight_singleton _ _ _ _ Hfl Hk) as (_ & [=] & _).
    + destruct (inflight_singleton _ _ _ _ Hfl Hk) as (_ & _ & Hdel).
      destruct Hqz as (qz' & Hquiz' & Hkey & Hi); [congruence|].
      destruct o as [data|err]; unfold invariant, recorded, keyed; simpl; rewrite Hdel.
      * repeat split; auto; try done; intros _; eauto.
      * rewrite Hs. repeat split; auto; try done. intros _; eauto.
  - (* ClickNewQuiz *)
    destruct (step s) eqn:Hs; try done.
    destruct (result s); try done. injection He as <-.
    unfold invariant, recorded, keyed; simpl. repeat split; try done.
    destruct Hfl as [Hfl | [(b' & Hfl & ? & _) | (b' & qz & Hfl & ? & _)]];
      [by left | congruence..].
Qed.

Lemma reachable_invariant s : reachable s → invariant s.
Proof.
  induction 1 as [|s now e s' _ IH He];
    [apply invariant_mount | by eapply invariant_handle].
Qed.

Lemma run_reachable s tr s' : reachable s → run s tr = Some s' → reachable s'.
Proof.
  revert s. induction tr as [|[now e] tr IH]; intros s Hs; simpl.
  - by intros [= <-].
  - destruct (handle now s e) as [s1|] eqn:He; [|done].
    apply IH. by eapply reachable_step.
Qed.

Lemma after_reachable tr : reachable (after tr).
Proof.
  unfold after. destruct (run sample_mount tr) as [s|] eqn:Hr; simpl.
  - eapply run_reachable; [apply reachable_mount | exact Hr].
  - apply reachable_mount.
Qed.

(** *** Counting answers *)

Lemma size_list_to_set_le (l : list Z) : (size (list_to_set l : gset Z) <= length l)%nat.
Proof.
  induction l as [|x l IH].
  - change (list_to_set [] : gset Z) with (∅ : gset Z). by rewrite size_empty.
  - change (list_to_set (x :: l) : gset Z) with ({[x]} ∪ list_to_set l : gset Z).
    simpl length. destruct (decide (x ∈ (list_to_set l : gset Z))) as [Hx|Hx].
    + rewrite subseteq_union_1_L by (by apply singleton_subseteq_l). lia.
    + rewrite size_union by (by apply disjoint_singleton_l).
      rewrite size_singleton. lia.
Qed.

Lemma keyed_dom qz s : keyed qz s → dom (answers s) ⊆ question_ids qz.
Proof.
  intros Hk k Hd. apply elem_of_dom in Hd. apply elem_of_list_to_set. by apply Hk.
Qed.

Lemma recorded_dom qz s : recorded qz s → question_ids qz ⊆ dom (answers s).
Proof.
  intros Hr k Hk. apply elem_of_list_to_set, list_elem_of_fmap in Hk as (q & -> & Hq).
  apply elem_of_dom. by apply Hr.
Qed.

Lemma keyed_size qz s : keyed qz s → (size (answers s) <= length (questions qz))%nat.
Proof.
  intros Hk. rewrite <- size_dom.
  etrans; [apply subseteq_size, keyed_dom, Hk|].
  unfold question_ids. etrans; [apply size_list_to_set_le|]. by rewrite length_fmap.
Qed.

(** When every question has an entry and every entry has a question, the
    entries are the distinct question ids. *)
Lemma complete_answers qz s :
  keyed qz s → recorded qz s →
  dom (answers s) = question_ids qz
  ∧ size (answers s) = size (question_ids qz)
  ∧ (NoDup (id <$> questions qz) → size (answers s) = length (questions qz)).
Proof.
  intros Hk Hr.
  assert (dom (answers s) = question_ids qz) as Hdom.
  { apply set_eq. intros k. split; [apply keyed_dom, Hk | apply recorded_dom, Hr]. }
  split; [done|]. rewrite <- size_dom, Hdom. split; [done|].
  intros Hnd. unfold question_ids. rewrite size_list_to_set by done. apply length_fmap.
Qed.

(** *** What one event can change *)

Ltac handle_cases He :=
  unfold handle, handleStartQuiz, handleSubmitQuiz, handleStartQuiz_resume,
    handleSubmitQuiz_resume, handleSelectAnswer, newQuiz in He;
  repeat case_match; simplify_eq; simpl in *.

Lemma handle_step now s e s' :
  handle now s e = Some s' →
  step s' = step s
  ∨ (∃ k qz, e = GenerateSettled k (Resolved (Some qz)) ∧ step s' = Quiz)
  ∨ (∃ k data, e = SubmitSettled k (Resolved data) ∧ step s' = Result)
  ∨ (e = ClickNewQuiz ∧ step s = Result ∧ step s' = Setup).
Proof. intros He. destruct e; handle_cases He; eauto 8. Qed.

Lemma handle_currentQ now s e s' :
  handle now s e = Some s' →
  currentQ s' = currentQ s
  ∨ (e = ClickNext ∧ currentQ s' = currentQ s + 1
     ∧ ∃ qz q, shown_question s = Some (qz, q) ∧ isLast qz s = false
               ∧ truthy_opt (answers s !! id q) = true)
  ∨ (e = ClickPrevious ∧ currentQ s' = currentQ s - 1 ∧ 0 < currentQ s)
  ∨ (∃ k qz b, e = GenerateSettled k (Resolved (Some qz))
               ∧ inflight s !! k = Some (Generate b) ∧ currentQ s' = 0).
Proof.
  intros He. destruct e; handle_cases He; eauto 10.
  - right; right; left. repeat split; auto. by apply Z.ltb_lt.
  - right; left. repeat split; auto. eexists _, _. repeat split; eauto.
    by apply negb_false_iff.
Qed.

Lemma handle_answers now s e s' :
  handle now s e = Some s' →
  answers s' = answers s
  ∨ (∃ i qz q option, e = ClickOption i ∧ shown_question s = Some (qz, q)
                      ∧ options q !! i = Some option
                      ∧ answers s' = <[id q := option]> (answers s))
  ∨ (∃ k qz, e = GenerateSettled k (Resolved (Some qz)) ∧ questions qz ≠ []
             ∧ step s' = Quiz ∧ answers s' = ∅).
Proof.
  intros He. destruct e; handle_cases He; eauto 10.
  right; right. eexists _, _. repeat split; eauto.
  intros Hnil. by rewrite Hnil in *.
Qed.

Lemma handle_startTime now s e s' : handle now s e = Some s' → startTime s' = startTime s.
Proof. intros He. destruct e; handle_cases He; eauto. Qed.

Lemma run_startTime s tr s' : run s tr = Some s' → startTime s' = startTime s.
Proof.
  revert s. induction tr as [|[now e] tr IH]; intros s; simpl.
  - by intros [= <-].
  - destruct (handle now s e) as [s1|] eqn:He; [|done].
    intros Hr. rewrite (IH _ Hr). by eapply handle_startTime.
Qed.

(** *** Submission and the result step *)

(** C2, as stated, fails: on a generated quiz whose two questions share an
    id, one click answers both, Submit is enabled on the last question and
    the page reaches [Result] with one entry in [answers] for two
    questions. *)
Lemma C2_repeated_id_counterexample :
  run sample_mount repeated_id_session = Some (after repeated_id_session)
  ∧ is_Some (handle 5000 (after (take 4 repeated_id_session)) ClickSubmit)
  ∧ step (after repeated_id_session) = Result
  ∧ quiz (after repeated_id_session) = Some repeated_id_quiz
  ∧ size (answers (after repeated_id_session)) = 1%nat
  ∧ length (questions repeated_id_quiz) = 2%nat.
Proof. vm_compute. repeat split; eauto. Qed.

(** C2 (amended): the result step is entered only by the continuation of a
    submission that succeeded; Submit can be clicked only on the last
    question and only when every question has a non-empty answer; at both
    moments every question has an entry in [answers] and the number of
    entries is the number of distinct question ids, hence the number of
    questions when the ids are pairwise distinct. *)
Theorem C2_result_only_after_complete_submit now s e s' :
  reachable s → handle now s e = Some s' →
  (e = ClickSubmit →
     ∃ qz, step s = Quiz ∧ quiz s = Some qz
           ∧ allAnswered qz s = true ∧ currentQ s = len (questions qz) - 1
           ∧ recorded qz s ∧ size (answers s) = size (question_ids qz)
           ∧ (NoDup (id <$> questions qz) → size (answers s) = length (questions qz)))
  ∧ (step s ≠ Result → step s' = Result →
     (∃ k data, e = SubmitSettled k (Resolved data))
     ∧ ∃ qz, quiz s' = Some qz
             ∧ recorded qz s' ∧ size (answers s') = size (question_ids qz)
             ∧ (NoDup (id <$> questions qz) → size (answers s') = length (questions qz))).
Proof.
  intros Hs He. split.
  - intros ->. simpl in He.
    destruct (shown_question s) as [[qz q]|] eqn:Hq; [|done].
    destruct (isLast qz s) eqn:Hlast; [|done].
    destruct (allAnswered qz s) eqn:Hall; [|done].
    apply shown_question_Some in Hq as (Hstep & Hquiz & _).
    destruct (reachable_invariant s Hs) as (_ & _ & Hqz & _).
    destruct Hqz as (qz' & Hquiz' & Hkey & _); [congruence|].
    assert (qz' = qz) as -> by congruence.
    pose proof (allAnswered_recorded _ _ Hall) as Hrec.
    destruct (complete_answers qz s Hkey Hrec) as (_ & Hsize & Hnd).
    exists qz. repeat split; auto. by apply Z.eqb_eq.
  - intros Hne Hres. split.
    + destruct (handle_step _ _ _ _ He)
        as [Heq | [(k & qz & _ & Hq) | [(k & data & -> & _) | (_ & _ & Hq)]]];
        [congruence | congruence | eauto | congruence].
    + assert (reachable s') as Hs' by (by eapply reachable_step).
      destruct (reachable_invariant s' Hs') as (_ & _ & Hqz & Hrec).
      destruct (Hrec Hres) as (qz & Hquiz & Hrec').
      destruct Hqz as (qz' & Hquiz' & Hkey & _); [congruence|].
      assert (qz' = qz) as -> by congruence.
      destruct (complete_answers qz s' Hkey Hrec') as (_ & Hsize & Hnd).
      exists qz. repeat split; auto.
Qed.

(** The sample session enters the result step with five answers for five
    questions. *)
Lemma C2_sample_witness :
  ∃ qz, quiz (after sample_submitted) = Some qz
        ∧ size (answers (after sample_submitted)) = length (questions qz).
Proof.
  destruct (C2_result_only_after_complete_submit 91000 (after sample_submitting)
              (SubmitSettled 0 (Resolved (Some sample_result))) (after sample_submitted))
    as [_ H].
  - apply after_reachable.
  - vm_compute. reflexivity.
  - destruct H as (_ & qz & Hquiz & _ & _ & Hnd).
    + vm_compute. discriminate.
    + vm_compute. reflexivity.
    + exists qz. split; [exact Hquiz|]. apply Hnd.
      vm_compute in Hquiz. injection Hquiz as <-.
      apply (bool_decide_unpack _). vm_compute. exact I.
Defined.

(** *** The time sent with a submission *)

(** Whenever Submit is clicked, the request carries the seconds elapsed
    since the value of [startTime]. *)
Lemma submit_time_taken now s s' :
  handle now s ClickSubmit = Some s' →
  ∃ b, inflight s' = inflight s ++ [Submit b]
       ∧ time_taken b = (inject_Z (now - startTime s) / 1000)%Q
       ∧ sub_answers b = answers s.
Proof.
  intros He. simpl in He.
  destruct (shown_question s) as [[qz q]|] eqn:Hq; [|done].
  apply shown_question_Some in Hq as (_ & Hquiz & _).
  handle_cases He. eauto.
Qed.

(** [startTime] is the time of the mount for the whole life of the page. *)
Lemma startTime_is_mount_time stu sp_subject sp_chapter t tr s :
  run (mount stu sp_subject sp_chapter t) tr = Some s → startTime s = t.
Proof. intros Hr. by rewrite (run_startTime _ _ _ Hr). Qed.

(** C3, on the code: the page is opened at 0, the quiz starts at 60000 and
    is submitted at 90000; the request carries 90 seconds, the time since
    the page was opened, where the quiz has lasted 30. *)
Theorem C3_time_taken_counts_from_mount :
  run_started None sample_mount sample_submitting
    = Some (after sample_submitting, Some 60000)
  ∧ ∃ b, inflight (after sample_submitting) = [Submit b]
         ∧ (time_taken b == 90)%Q
         ∧ ¬ (time_taken b == inject_Z (90000 - 60000) / 1000)%Q.
Proof.
  split; [vm_compute; reflexivity|].
  eexists. split; [vm_compute; reflexivity|]. split; vm_compute; congruence.
Qed.

(** *** Generation *)

(** C4: when the generation request resolves without questions, the page
    stays in the setup step without a quiz and displays an error in its
    banner; when it resolves with questions, the page enters the quiz step
    on the first question with no answers. *)
Theorem C4_empty_generation_aborts now s k data s' :
  reachable s → handle now s (GenerateSettled k (Resolved data)) = Some s' →
  step s = Setup
  ∧ (match data with Some qz => questions qz = [] | None => True end →
       step s' = Setup ∧ quiz s' = None
       ∧ error s' = Some "Quiz returned no questions. Please try again."
       ∧ banner s' = Some "Quiz returned no questions. Please try again."
       ∧ answers s' = answers s ∧ currentQ s' = currentQ s ∧ loading s' = false)
  ∧ (∀ qz, data = Some qz → questions qz ≠ [] →
       step s' = Quiz ∧ quiz s' = Some qz ∧ currentQ s' = 0 ∧ answers s' = ∅
       ∧ loading s' = false).
Proof.
  intros Hs He. simpl in He.
  destruct (inflight s !! k) as [[b|b]|] eqn:Hk; try done. injection He as <-.
  destruct (reachable_invariant s Hs)
    as ([Hfl | [(b' & Hfl & Hstep & _) | (b' & qz' & Hfl & _)]] & Hset & _).
  { by rewrite Hfl in Hk. }
  2: { destruct (inflight_singleton _ _ _ _ Hfl Hk) as (_ & [=] & _). }
  split; [done|]. split.
  - intros Hzero. unfold banner. destruct data as [qz|]; simpl.
    + rewrite Hzero. simpl. rewrite Hstep. auto 10.
    + rewrite Hstep. auto 10.
  - intros qz -> Hne. simpl.
    destruct (Z.eqb_spec (len (questions qz)) 0) as [Hz|_]; [|done].
    unfold len in Hz. destruct (questions qz); [done | simpl in Hz; lia].
Qed.

Lemma C4_empty_generation_witness :
  step (after [(59000, ClickStart);
               (60000, GenerateSettled 0 (Resolved (Some
                  {| quiz_id := "quiz-0"; difficulty := "easy"; questions := [] |})))])
  = Setup
  ∧ banner (after [(59000, ClickStart);
                   (60000, GenerateSettled 0 (Resolved (Some
                      {| quiz_id := "quiz-0"; difficulty := "easy"; questions := [] |})))])
    = Some "Quiz returned no questions. Please try again.".
Proof.
  destruct (C4_empty_generation_aborts 60000 (after [(59000, ClickStart)]) 0
              (Some {| quiz_id := "quiz-0"; difficulty := "easy"; questions := [] |})
              (after [(59000, ClickStart);
                      (60000, GenerateSettled 0 (Resolved (Some
                         {| quiz_id := "quiz-0"; difficulty := "easy";
                            questions := [] |})))]))
    as (_ & H & _).
  - apply after_reachable.
  - vm_compute. reflexivity.
  - destruct H as (H1 & _ & _ & H2 & _); [reflexivity|]. split; [exact H1 | exact H2].
Defined.

(** *** Failed submission *)

(** C5, on the code: when the submission request is rejected, whatever the
    cause, the page stays in the quiz step with the same quiz, the same
    answers and the same index and is no longer loading; the text saying
    that the answers were not saved is put into [error], and nothing is
    displayed: the banner that shows [error] stands in the setup view
    only. *)
Theorem C5_failed_submit_keeps_answers now s k err s' :
  reachable s → handle now s (SubmitSettled k (Rejected err)) = Some s' →
  step s = Quiz ∧ step s' = Quiz
  ∧ answers s' = answers s ∧ quiz s' = quiz s ∧ currentQ s' = currentQ s
  ∧ error s' = Some "Failed to submit quiz. Your answers were not saved."
  ∧ banner s' = None
  ∧ loading s' = false ∧ inflight s' = [].
Proof.
  intros Hs He. simpl in He.
  destruct (inflight s !! k) as [[b|b]|] eqn:Hk; try done. injection He as <-.
  destruct (reachable_invariant s Hs)
    as ([Hfl | [(b' & Hfl & _) | (b' & qz' & Hfl & Hstep & _)]] & _).
  - by rewrite Hfl in Hk.
  - destruct (inflight_singleton _ _ _ _ Hfl Hk) as (_ & [=] & _).
  - destruct (inflight_singleton _ _ _ _ Hfl Hk) as (_ & _ & Hdel).
    unfold banner. simpl. by rewrite Hdel, Hstep.
Qed.

(** The fifth answer given and the submission rejected at 91000: the answers
    are kept, the text is in [error], and the page displays none. *)
Lemma C5_failed_submit_witness :
  answers (after (sample_submitting ++
     [(91000, SubmitSettled 0 (Rejected {| name := "AxiosError";
                                           message := Some "Network Error" |}))]))
  = answers (after sample_submitting)
  ∧ error (after (sample_submitting ++
       [(91000, SubmitSettled 0 (Rejected {| name := "AxiosError";
                                             message := Some "Network Error" |}))]))
    = Some "Failed to submit quiz. Your answers were not saved."
  ∧ banner (after (sample_submitting ++
       [(91000, SubmitSettled 0 (Rejected {| name := "AxiosError";
                                             message := Some "Network Error" |}))]))
    = None.
Proof.
  destruct (C5_failed_submit_keeps_answers 91000 (after sample_submitting) 0
              {| name := "AxiosError"; message := Some "Network Error" |}
              (after (sample_submitting ++
                 [(91000, SubmitSettled 0 (Rejected {| name := "AxiosError";
                                                       message := Some "Network Error" |}))])))
    as (_ & _ & H & _ & _ & He & Hb & _).
  - apply after_reachable.
  - vm_compute. reflexivity.
  - split; [exact H|]. split; [exact He | exact Hb].
Defined.

(** *** Selecting answers *)

(** C7: selecting again for the same question replaces the recorded option
    (so B then D for question 3 leaves D), and in the quiz step the number
    of entries of [answers] is at most the number of questions. *)
Theorem C7_select_answer_overwrites s :
  reachable s →
  (∀ qid a b,
     answers (handleSelectAnswer qid b (handleSelectAnswer qid a s)) !! qid = Some b
     ∧ answers (handleSelectAnswer qid b (handleSelectAnswer qid a s))
       = answers (handleSelectAnswer qid b s))
  ∧ answers (handleSelectAnswer 3 "D" (handleSelectAnswer 3 "B" s)) !! 3 = Some "D"
  ∧ (step s = Quiz →
       ∃ qz, quiz s = Some qz ∧ (size (answers s) <= length (questions qz))%nat).
Proof.
  intros Hs. split; [|split].
  - intros qid a b. simpl. split; [apply lookup_insert_eq | apply insert_insert_eq].
  - simpl. apply lookup_insert_eq.
  - intros Hstep. destruct (reachable_invariant s Hs) as (_ & _ & Hqz & _).
    destruct Hqz as (qz & Hquiz & Hkey & _); [congruence|].
    exists qz. split; [done | by apply keyed_size].
Qed.

Lemma C7_select_answer_witness :
  answers (handleSelectAnswer 3 "D" (handleSelectAnswer 3 "B" (after sample_answering))) !! 3
  = Some "D".
Proof.
  destruct (C7_select_answer_overwrites (after sample_answering)) as (_ & H & _).
  - apply after_reachable.
  - exact H.
Defined.

(** *** Navigation *)

(** C9: in the quiz step the index is inside the list of questions; Next
    adds one and is possible only away from the last question and when the
    shown question has a non-empty answer; Previous subtracts one and is
    possible only past the first question; no other event changes the
    index. *)
Theorem C9_index_stays_in_range s :
  reachable s → step s = Quiz →
  (∃ qz, quiz s = Some qz ∧ 0 <= currentQ s < len (questions qz))
  ∧ ∀ now e s', handle now s e = Some s' →
      (e = ClickNext →
         currentQ s' = currentQ s + 1
         ∧ ∃ qz q, quiz s = Some qz ∧ at_index (questions qz) (currentQ s) = Some q
                   ∧ currentQ s ≠ len (questions qz) - 1
                   ∧ truthy_opt (answers s !! id q) = true
                   ∧ is_Some (answers s !! id q))
      ∧ (e = ClickPrevious → currentQ s' = currentQ s - 1 ∧ 0 < currentQ s)
      ∧ (e ≠ ClickNext → e ≠ ClickPrevious → currentQ s' = currentQ s).
Proof.
  intros Hs Hstep. destruct (reachable_invariant s Hs) as (Hfl & _ & Hqz & _). split.
  - destruct Hqz as (qz & Hquiz & _ & Hi); [congruence | eauto].
  - intros now e s' He.
    destruct (handle_currentQ _ _ _ _ He)
      as [Heq | [(-> & Hn & qz & q & Hq & Hlast & Ht) | [(-> & Hp & Hpos)
         | (k & qz & b & -> & Hk & _)]]].
    + split; [|split]; [intros -> ..|done]; exfalso; handle_cases He; lia.
    + apply shown_question_Some in Hq as (_ & Hquiz & _ & _ & Hat).
      split; [|split]; [|done..]. intros _. split; [done|].
      exists qz, q. repeat split; auto.
      * unfold isLast in Hlast. by apply Z.eqb_neq.
      * by apply truthy_opt_is_Some.
    + split; [|split]; done.
    + destruct Hfl as [Hfl | [(b' & _ & ? & _) | (b' & qz' & Hfl & _)]];
        [by rewrite Hfl in Hk | congruence |].
      destruct (inflight_singleton _ _ _ _ Hfl Hk) as (_ & [=] & _).
Qed.

Lemma C9_index_witness :
  ∃ qz, quiz (after sample_answering) = Some qz
        ∧ 0 <= currentQ (after sample_answering) < len (questions qz).
Proof.
  destruct (C9_index_stays_in_range (after sample_answering)) as [H _].
  - apply after_reachable.
  - vm_compute. reflexivity.
  - exact H.
Defined.

(** *** Starting over *)

Lemma setup_step_keeps_answers now s e s' :
  reachable s → step s = Setup → handle now s e = Some s' →
  ¬ generation_success e → step s' = Setup ∧ answers s' = answers s.
Proof.
  intros Hs Hstep He Hgen.
  destruct (reachable_invariant s Hs) as (Hfl & _). split.
  - destruct (handle_step _ _ _ _ He)
      as [Heq | [(k & qz & -> & Hq) | [(k & data & -> & _) | (_ & ? & _)]]];
      [congruence | | | congruence].
    + destruct (questions qz) as [|q l] eqn:Hqs.
      * handle_cases He; [congruence | by rewrite Hqs in *].
      * destruct Hgen. eexists _, _. split; [done|]. by rewrite Hqs.
    + simpl in He. destruct (inflight s !! k) as [[b|b]|] eqn:Hk; try done.
      destruct Hfl as [Hfl | [(b' & Hfl & _) | (b' & qz' & _ & ? & _)]];
        [by rewrite Hfl in Hk | | congruence].
      destruct (inflight_singleton _ _ _ _ Hfl Hk) as (_ & [=] & _).
  - destruct (handle_answers _ _ _ _ He)
      as [Heq | [(i & qz & q & o & _ & Hq & _) | (k & qz & -> & Hne & _)]].
    + done.
    + apply shown_question_Some in Hq as (? & _). congruence.
    + destruct Hgen. by eexists _, _.
Qed.

Lemma setup_run_keeps_answers tr s s' :
  reachable s → step s = Setup → run s tr = Some s' →
  Forall (λ te, ¬ generation_success te.2) tr →
  step s' = Setup ∧ answers s' = answers s.
Proof.
  revert s. induction tr as [|[now e] tr IH]; intros s Hs Hstep Hr Hall; simpl in Hr.
  - by injection Hr as <-.
  - destruct (handle now s e) as [s1|] eqn:He; [|done].
    apply Forall_cons in Hall as [He' Hall]. simpl in He'.
    destruct (setup_step_keeps_answers _ _ _ _ Hs Hstep He He') as [Hstep1 Hans1].
    destruct (IH s1) as [? ?]; [by eapply reachable_step | done..|].
    split; [done | congruence].
Qed.

(** C10: New Quiz, available in the result step, puts the page back in the
    setup step without quiz and without result and leaves every other cell
    as it was, the answers, the subject and the chapter among them; from
    there the answers stay as they were for as long as no generation
    request succeeds, and the one that succeeds empties them. *)
Theorem C10_new_quiz_frame now s s' :
  reachable s → handle now s ClickNewQuiz = Some s' →
  step s = Result
  ∧ step s' = Setup ∧ quiz s' = None ∧ result s' = None
  ∧ answers s' = answers s ∧ subject s' = subject s ∧ chapterId s' = chapterId s
  ∧ currentQ s' = currentQ s ∧ loading s' = loading s ∧ error s' = error s
  ∧ startTime s' = startTime s ∧ student s' = student s
  ∧ subjectOptions s' = subjectOptions s ∧ inflight s' = inflight s
  ∧ (∀ tr s'', run s' tr = Some s'' → Forall (λ te, ¬ generation_success te.2) tr →
       step s'' = Setup ∧ answers s'' = answers s)
  ∧ (∀ now' e s'', handle now' s' e = Some s'' → generation_success e →
       step s'' = Quiz ∧ answers s'' = ∅).
Proof.
  intros Hs He.
  assert (reachable s') as Hs' by (by eapply reachable_step).
  simpl in He. destruct (step s) eqn:Hstep; try done.
  destruct (result s); try done. injection He as <-.
  do 14 (split; [done|]). split.
  - intros tr s'' Hr Hall. by apply (setup_run_keeps_answers tr (newQuiz s)).
  - intros now' e s'' He (k & qz & -> & Hne).
    handle_cases He; [by destruct (questions qz) | done].
Qed.

Lemma C10_new_quiz_witness :
  answers (after (sample_submitted ++ [(120000, ClickNewQuiz)]))
  = answers (after sample_submitted).
Proof.
  destruct (C10_new_quiz_frame 120000 (after sample_submitted)
              (after (sample_submitted ++ [(120000, ClickNewQuiz)])))
    as (_ & _ & _ & _ & H & _).
  - apply after_reachable.
  - vm_compute. reflexivity.
  - exact H.
Defined.

(** *** The result view *)

(** The quotient and the product of the percentage are the doubles that the
    Standard Library's binary64 computes, for every score within a total of
    up to 64. *)
Lemma percentage_as_binary64 :
  forallb (λ t, forallb (λ s,
      same_number
        (of_binary64 (binary64_product s t))
        (Number_mul (Number_div (Number_of_Z s) (Number_of_Z t)) (Number_of_Z 100)))
    (seqZ 0 (t + 1))) (seqZ 1 64) = true.
Proof. vm_compute. reflexivity. Qed.

(** For a score within a total below 2^40 the product is a double within
    2^-44 of 100 * score / total. *)
Lemma percentage_product s t :
  0 <= s <= t → 0 < t < 2 ^ 40 →
  ∃ y, Number_mul (Number_div (Number_of_Z s) (Number_of_Z t)) (Number_of_Z 100) = Finite y
       ∧ (0 <= y)%Q
       ∧ (Qabs (y - inject_Z (100 * s) / inject_Z t) <= 1 # 2 ^ 44)%Q.
Proof.
  intros Hs Ht. change (2 ^ 40) with 1099511627776 in Ht.
  assert (Z.abs s < 2 ^ 53 ∧ Z.abs t < 2 ^ 53) as [Hs53 Ht53]
    by (change (2 ^ 53) with 9007199254740992; lia).
  unfold Number_of_Z at 1 2.
  rewrite (to_number_int _ s (Qeq_refl _) Hs53), (to_number_int _ t (Qeq_refl _) Ht53).
  change (Number_of_Z 100) with (Finite 100). unfold Number_div.
  destruct (Qeq_bool (inject_Z t) 0) eqn:Et.
  { apply Qeq_bool_iff in Et. unfold Qeq in Et. simpl in Et. lia. }
  set (X := (inject_Z (100 * s) / inject_Z t)%Q).
  assert (X == 100 * (inject_Z s / inject_Z t))%Q as HX.
  { unfold X. rewrite inject_Z_mult. field. intros E. apply Qeq_bool_neq in Et. by apply Et. }
  destruct (Z.eq_dec s 0) as [-> | Hs0].
  - rewrite (to_number_int _ 0); [|by apply Qeq_bool_iff | done]. unfold Number_mul.
    rewrite (to_number_int _ 0); [|done | done].
    exists (inject_Z 0). split; [done|]. split; [by apply Qle_bool_iff|].
    assert (X == 0)%Q as HX0 by (rewrite HX; by apply Qeq_bool_iff).
    apply Qabs_diff_Qle_condition. change (inject_Z 0) with 0%Q.
    change (1 # 2 ^ 44)%Q with (1 # 17592186044416)%Q. lra.
  - set (x0 := (inject_Z s / inject_Z t)%Q) in *.
    assert ((1 # 1099511627776) <= x0 ∧ x0 <= 1)%Q as [Hlo Hhi].
    { unfold x0. destruct t as [|t|t]; try lia.
      unfold Qle, Qdiv, Qmult, Qinv, inject_Z; simpl. lia. }
    assert (2 ^ (-1022) <= 1 # 1099511627776000)%Q as Hmin.
    { eapply Qle_trans; [apply (pow2_le (-1022) (-50)); lia|]. by apply Qle_bool_iff. }
    assert (100 <= 2 ^ 1023)%Q as Hmax.
    { eapply Qle_trans; [|apply (pow2_le 7 1023); lia]. by apply Qle_bool_iff. }
    destruct (to_number_near x0) as (y1 & -> & Hy1); [lra..|].
    apply Qabs_diff_Qle_condition in Hy1.
    change (1 # 2 ^ 53)%Q with (1 # 9007199254740992)%Q in Hy1.
    unfold Number_mul.
    destruct (to_number_near (y1 * 100)) as (y & -> & Hy); [lra..|].
    apply Qabs_diff_Qle_condition in Hy.
    change (1 # 2 ^ 53)%Q with (1 # 9007199254740992)%Q in Hy.
    exists y. split; [done|]. split; [lra|].
    apply Qabs_diff_Qle_condition.
    change (1 # 2 ^ 44)%Q with (1 # 17592186044416)%Q. lra.
Qed.

(** How far 100 * score / total + 1/2 is from the integers around it. *)
Lemma percentage_gap s t :
  0 <= s → 0 < t < 2 ^ 40 →
  ∃ f : Q,
    (inject_Z (100 * s) / inject_Z t + (1 # 2)
     == inject_Z (round_half_up (inject_Z (100 * s) / inject_Z t)) + f)%Q
    ∧ (0 <= f)%Q ∧ (f <= 1 - (1 # 2 ^ 41))%Q
    ∧ ((200 * s + t) mod (2 * t) ≠ 0 → (1 # 2 ^ 41 <= f)%Q)
    ∧ ((200 * s + t) mod (2 * t) = 0 → (f == 0)%Q).
Proof.
  intros Hs Ht. change (2 ^ 40) with 1099511627776 in Ht.
  change (2 ^ 41)%positive with 2199023255552%positive.
  set (N := 200 * s + t). set (D := 2 * t).
  assert (inject_Z (100 * s) / inject_Z t + (1 # 2) == N # Z.to_pos D)%Q as HX.
  { unfold N, D. destruct t as [|t|t]; try lia.
    unfold Qeq, Qdiv, Qmult, Qinv, Qplus, inject_Z; simpl. lia. }
  assert (round_half_up (inject_Z (100 * s) / inject_Z t) = N / D) as ->.
  { unfold round_half_up. rewrite HX. unfold Qfloor. f_equal. unfold D. lia. }
  pose proof (Z.div_mod N D ltac:(unfold D; lia)) as Hdiv.
  pose proof (Z.mod_pos_bound N D ltac:(unfold D; lia)) as Hmod.
  exists (N mod D # Z.to_pos D)%Q. rewrite HX.
  assert (Z.pos (Z.to_pos D) = D) as HD by (unfold D; lia).
  repeat split.
  - unfold Qeq, Qplus, inject_Z; simpl. rewrite HD. nia.
  - unfold Qle; simpl. lia.
  - unfold Qle, Qminus, Qplus, Qopp; simpl. rewrite HD. unfold D in *. lia.
  - intros Hne. unfold Qle; simpl. rewrite HD. unfold D in *. lia.
  - intros He. unfold Qeq; simpl. unfold N, D in *. lia.
Qed.

(** C8, as stated, fails: with 43 correct answers out of 72 the ratio is
    below 0.6, the displayed percentage is 60 and the result is shown as
    good. *)
Lemma C8_threshold_counterexample :
  0 <= score near_miss_result <= total near_miss_result
  ∧ 0 < total near_miss_result
  ∧ percentage near_miss_result = Finite (inject_Z 60)
  ∧ isGood near_miss_result = true
  ∧ ¬ (6 # 10 <= inject_Z (score near_miss_result) / inject_Z (total near_miss_result))%Q.
Proof. vm_compute. repeat split; congruence. Qed.

(** The percentage is rounded from a double, not from the exact quotient:
    23 of 40 is 57.5 percent exactly, the double that the code rounds is
    just below it, and 57 is displayed where round(100 * 23 / 40) is 58. *)
Lemma percentage_of_a_double :
  halfway halfway_result
  ∧ percentage halfway_result = Finite (inject_Z 57)
  ∧ spec_percentage halfway_result = 58.
Proof. vm_compute. repeat split. Qed.

(** C8 (amended): for a result with 0 ≤ score ≤ total and 0 < total (below
    2^40) the displayed percentage is an integer between 0 and 100; it is
    round(100 * score / total) whenever 100 * score / total does not lie
    exactly halfway between two integers, and that or one less when it
    does; the result is shown as good exactly when the displayed percentage
    is at least 60: whenever score/total ≥ 0.6, and never when score/total
    is below 0.595. *)
Theorem C8_percentage_and_threshold r :
  0 <= score r <= total r → 0 < total r < 2 ^ 40 →
  ∃ p, percentage r = Finite (inject_Z p)
       ∧ 0 <= p <= 100
       ∧ spec_percentage r - 1 <= p <= spec_percentage r
       ∧ (¬ halfway r → p = spec_percentage r)
       ∧ (isGood r = true ↔ 60 <= p)
       ∧ ((6 # 10 <= inject_Z (score r) / inject_Z (total r))%Q → isGood r = true)
       ∧ ((inject_Z (score r) / inject_Z (total r) < 595 # 1000)%Q → isGood r = false).
Proof.
  intros Hscore Htotal. unfold isGood, percentage, spec_percentage, halfway.
  destruct r as [sc tot xp nd cs lm wt]; cbn [score total] in *.
  destruct (percentage_product sc tot Hscore Htotal) as (y & -> & Hy0 & Hy).
  destruct (percentage_gap sc tot ltac:(lia) Htotal) as (f & HX & Hf0 & Hf1 & Hf & Hft).
  set (X := (inject_Z (100 * sc) / inject_Z tot)%Q) in *.
  set (R := round_half_up X) in *.
  apply Qabs_diff_Qle_condition in Hy.
  change (1 # 2 ^ 44)%Q with (1 # 17592186044416)%Q in Hy.
  change (1 # 2 ^ 41)%Q with (1 # 2199023255552)%Q in Hf1, Hf.
  assert (0 <= X ∧ X <= 100)%Q as [HX0 HX100].
  { unfold X. change (2 ^ 40) with 1099511627776 in Htotal.
    destruct tot as [|t|t]; try lia.
    unfold Qle, Qdiv, Qmult, Qinv, inject_Z; simpl. lia. }
  assert (inject_Z sc / inject_Z tot == X * (1 # 100))%Q as Hratio.
  { unfold X. change (2 ^ 40) with 1099511627776 in Htotal.
    destruct tot as [|t|t]; try lia.
    unfold Qeq, Qdiv, Qmult, Qinv, inject_Z; simpl. lia. }
  assert (R - 1 <= round_half_up y <= R) as Hp.
  { split.
    - apply round_half_up_ge. replace (R - 1) with (R + -1) by lia.
      rewrite inject_Z_plus. change (inject_Z (-1)) with (-1)%Q. lra.
    - apply round_half_up_le. rewrite inject_Z_plus. change (inject_Z 1) with 1%Q. lra. }
  assert (0 <= R <= 100) as HR by (apply round_half_up_between; assumption).
  assert ((200 * sc + tot) mod (2 * tot) ≠ 0 → round_half_up y = R) as Hexact.
  { intros Hne. specialize (Hf Hne). apply Z.le_antisymm; [lia|].
    apply round_half_up_ge. lra. }
  assert (Number_le (Number_of_Z 60) (Math_round (Finite y)) = true
          ↔ 60 <= round_half_up y) as Hgood.
  { change (Number_of_Z 60) with (Finite (inject_Z 60)). simpl.
    by rewrite Qle_bool_iff, <- Zle_Qle. }
  exists (round_half_up y). split; [done|]. split.
  { split; [|lia]. apply round_half_up_ge. change (inject_Z 0) with 0%Q. lra. }
  split; [done|]. split; [done|]. split; [done|]. split.
  - intros Hr. apply Hgood. rewrite Hratio in Hr.
    destruct (Z.eq_dec ((200 * sc + tot) mod (2 * tot)) 0) as [Htie | Hne].
    + specialize (Hft Htie). assert (61 <= R); [|lia].
      destruct (Z.le_gt_cases 61 R) as [|Hlt]; [done|].
      assert (R <= 60) as HR60 by lia. rewrite Zle_Qle in HR60.
      change (inject_Z 60) with 60%Q in HR60. exfalso. lra.
    + rewrite (Hexact Hne). apply round_half_up_ge. change (inject_Z 60) with 60%Q. lra.
  - intros Hr. rewrite Hratio in Hr.
    apply not_true_is_false. intros E. apply Hgood in E.
    assert (R <= 59); [|lia]. apply round_half_up_le.
    change (inject_Z (59 + 1)) with 60%Q. lra.
Qed.

(** Four out of five is displayed as 80 percent and shown as good. *)
Lemma C8_sample_witness :
  percentage sample_result = Finite (inject_Z 80) ∧ isGood sample_result = true.
Proof.
  destruct (C8_percentage_and_threshold sample_result) as (p & Hp & _).
  - vm_compute. split; discriminate.
  - vm_compute. split; reflexivity.
  - split; vm_compute; reflexivity.
Defined.

End QuizPageFacts.

(** ** Properties of the learning page *)

Module LearningPageFacts.

Import Js LearningPage.

(** What one event does to the history: nothing, or one message at the end,
    of the student on a submission and of the assistant on a settled
    request. *)
Lemma handle_messages now s e s' :
  handle now s e = Some s' →
  messages s' = messages s
  ∨ (e = SubmitForm ∧ ∃ u, role u = user ∧ content u = input s
                           ∧ messages s' = messages s ++ [u])
  ∨ (∃ k o a, e = AskSettled k o ∧ role a = assistant
              ∧ messages s' = messages s ++ [a]).
Proof.
  intros He. unfold handle in He. destruct (crashed s); [done|].
  destruct e; simpl in He.
  - destruct (isLoading s); simplify_eq. by left.
  - repeat case_match; simplify_eq. by left.
  - destruct (negb (truthy (trim (input s))) || isLoading s); simplify_eq.
    unfold handleSendMessage. repeat case_match; simpl; eauto.
    right; left. split; [done|]. eexists. repeat split; eauto; done.
  - repeat case_match; simplify_eq. by left.
  - destruct (calls s !! k) as [c|]; [|done]. destruct (settled c); simplify_eq.
    unfold handleSendMessage_resume, handleSendMessage_catch.
    destruct o as [[r|]|err]; simpl; [right; right | by left | right; right];
      eexists _, _, _; repeat split; eauto; done.
Qed.

(** An event can only occur on a page that is up. *)
Lemma handle_up now s e s' : handle now s e = Some s' → crashed s = false.
Proof. unfold handle. by destruct (crashed s). Qed.

(** Only a body that is [null] takes the page down. *)
Lemma handle_crashed now s e s' :
  handle now s e = Some s' →
  crashed s' = true ↔ ∃ k, e = AskSettled k (Resolved None).
Proof.
  intros He. unfold handle in He. destruct (crashed s) eqn:Hcr; [done|].
  destruct e; simpl in He.
  - destruct (isLoading s); simplify_eq. simpl. rewrite Hcr.
    split; [done | by intros [? ?]].
  - repeat case_match; simplify_eq; simpl; rewrite Hcr;
      (split; [done | by intros [? ?]]).
  - destruct (negb (truthy (trim (input s))) || isLoading s); simplify_eq.
    unfold handleSendMessage. repeat case_match; simpl; rewrite Hcr;
      (split; [done | by intros [? ?]]).
  - repeat case_match; simplify_eq; simpl; rewrite Hcr;
      (split; [done | by intros [? ?]]).
  - destruct (calls s !! k) as [c|]; [|done]. destruct (settled c); simplify_eq.
    unfold handleSendMessage_resume, handleSendMessage_catch.
    destruct o as [[r|]|err]; simpl; rewrite ?Hcr.
    + split; [done | by intros [? ?]].
    + split; [eauto | done].
    + split; [done | by intros [? ?]].
Qed.

(** The synchronous part of an accepted send. *)
Lemma submit_accepted t0 s :
  accepted s →
  ∃ u c, handle t0 s SubmitForm = Some (handleSendMessage t0 s)
         ∧ role u = user ∧ content u = input s
         ∧ settled c = false ∧ timer c = true
         ∧ messages (handleSendMessage t0 s) = messages s ++ [u]
         ∧ calls (handleSendMessage t0 s) = calls s ++ [c]
         ∧ isLoading (handleSendMessage t0 s) = true
         ∧ crashed (handleSendMessage t0 s) = false.
Proof.
  intros (Hup & Hin & Hl & (stu & Hstu) & (sid & Hsid & Hsid') & (cid & Hcid & Hcid')).
  unfold handle, handleSendMessage.
  rewrite Hup, Hin, Hl, Hstu, Hsid, Hcid, Hsid', Hcid'. simpl.
  eexists _, _. repeat split. all: try reflexivity. exact Hup.
Qed.


(** With such a body it appends nothing, and the page goes down. *)
Lemma resume_null now k s :
  messages (handleSendMessage_resume now k (Resolved None) s) = messages s
  ∧ isLoading (handleSendMessage_resume now k (Resolved None) s) = false
  ∧ crashed (handleSendMessage_resume now k (Resolved None) s) = true.
Proof. done. Qed.

(** On a resolved request with a body, that message is the answer and no
    warning is raised. *)
Lemma resume_resolved now k r s :
  ∃ a, content a = answer r
       ∧ messages (handleSendMessage_resume now k (Resolved (Some r)) s) = messages s ++ [a]
       ∧ error (handleSendMessage_resume now k (Resolved (Some r)) s) = error s.
Proof. simpl. eexists. repeat split; reflexivity. Qed.

(** The timer of a call changes nothing but the flags of that call. *)
Lemma timer_fired_frame now k s s' :
  handle now s (TimerFired k) = Some s' →
  messages s' = messages s ∧ error s' = error s ∧ isLoading s' = isLoading s
  ∧ input s' = input s ∧ length (calls s') = length (calls s)
  ∧ ∀ c, calls s !! k = Some c → calls s' !! k = Some (abort c).
Proof.
  unfold handle. destruct (crashed s); [done|].
  destruct (calls s !! k) as [c|] eqn:Hk; [|done].
  destruct (timer c); [|done]. intros [= <-]. simpl. repeat split.
  - apply length_alter.
  - intros c' [= <-]. by rewrite list_lookup_alter_eq, Hk.
Qed.

(** The flags of a call do not bring the page down. *)
Lemma setCalls_up f s : crashed (setCalls f s) = crashed s.
Proof. done. Qed.


(** *** The history under any interleaving of events *)






(** *** One reply per send *)




(** *** The fifteen seconds *)

(** Between the 15000ms of the timer and the 120000ms of the transport, a
    request that resolves is answered with the answer: the timer has fired
    and marked its controller as aborted, and nothing came of it. *)
Lemma late_answer_is_shown t0 d r s :
  accepted s → frontend_timeout < d < transport_timeout →
  ∃ u a s', exchange t0 {| delay := d; reply := Resolved (Some r) |} s = Some s'
            ∧ messages s' = messages s ++ [u; a]
            ∧ content a = answer r ∧ error s' = None
            ∧ (aborted <$> calls s' !! length (calls s)) = Some true.
Proof.
  intros Hacc [Hlo Hhi].
  destruct (submit_accepted t0 s Hacc)
    as (u & c & Hh & Hu & Hcu & Hset & Htim & Hm & Hcalls & Hl & Hup).
  assert (calls (handleSendMessage t0 s) !! length (calls s) = Some c) as Hk.
  { rewrite Hcalls. by apply list_lookup_middle. }
  assert (error (handleSendMessage t0 s) = None) as Herr.
  { destruct Hacc as (_ & Hin & Hld & (stu & Hstu) & (sid & Hsid & Hsid') & (cid & Hcid & Hcid')).
    unfold handleSendMessage. by rewrite Hin, Hld, Hstu, Hsid, Hcid, Hsid', Hcid'. }
  unfold exchange, chatService_ask; simpl delay; simpl reply.
  destruct (Z.leb_spec transport_timeout d) as [|_]; [lia|].
  destruct (Z.leb_spec frontend_timeout d) as [_|]; [|lia].
  rewrite Hh. unfold mbind, option_bind, handle.
  rewrite Hup, Hk, Htim. rewrite setCalls_up, Hup. simpl.
  rewrite list_lookup_alter_eq, Hk. simpl. rewrite Hset.
  eexists u, _, _. split; [reflexivity|]. simpl. rewrite Hm, <- app_assoc.
  repeat split; [done..|].
  rewrite !list_lookup_alter_eq, Hk. done.
Qed.

(** C1, on the code: the backend answers after 20000ms, the student's
    question is followed by that answer, not by the timeout text, no
    warning is raised, and the only trace of the 15000ms is the flag of a
    controller that no request was given. *)
Theorem C1_late_answer_replaces_timeout :
  frontend_timeout < delay slow_backend
  ∧ ∃ u a s', exchange 1000 slow_backend sample_chat = Some s'
              ∧ messages s' = messages sample_chat ++ [u; a]
              ∧ role u = user ∧ role a = assistant
              ∧ content a = answer sample_response
              ∧ content a ≠ timeout_text
              ∧ error s' = None ∧ isLoading s' = false
              ∧ (aborted <$> calls s' !! 0%nat) = Some true.
Proof.
  split; [reflexivity|]. eexists _, _, _.
  split; [vm_compute; reflexivity|]. vm_compute. repeat split; congruence.
Qed.

(** Only the deadline of the transport produces the timeout text: a backend
    that has not answered after 120000ms. *)
Lemma transport_timeout_is_reported t0 d o s :
  accepted s → transport_timeout <= d →
  ∃ u a s', exchange t0 {| delay := d; reply := o |} s = Some s'
            ∧ messages s' = messages s ++ [u; a]
            ∧ content a = timeout_text ∧ error s' = Some timeout_warning.
Proof.
  intros Hacc Hd.
  destruct (submit_accepted t0 s Hacc)
    as (u & c & Hh & Hu & Hcu & Hset & Htim & Hm & Hcalls & Hl & Hup).
  assert (calls (handleSendMessage t0 s) !! length (calls s) = Some c) as Hk.
  { rewrite Hcalls. by apply list_lookup_middle. }
  unfold exchange, chatService_ask; simpl delay; simpl reply.
  destruct (Z.leb_spec transport_timeout d) as [_|]; [|lia].
  change (frontend_timeout <=? transport_timeout) with true. cbv iota.
  rewrite Hh. unfold mbind, option_bind, handle.
  rewrite Hup, Hk, Htim. rewrite setCalls_up, Hup. simpl.
  rewrite list_lookup_alter_eq, Hk. simpl. rewrite Hset.
  eexists u, _, _. split; [reflexivity|]. simpl. rewrite Hm, <- app_assoc.
  repeat split; done.
Qed.

End LearningPageFacts.

(** ** More properties of the quiz page *)

Module QuizPageMore.

Import Js QuizPage QuizPageFacts.

(** *** Loading, requests and errors *)

Lemma inflight_at_most_one s :
  invariant s → inflight s = [] ∨ ∃ r, inflight s = [r].
Proof.
  intros ([H | [(b & H & _) | (b & qz & H & _)]] & _); eauto.
Qed.

Lemma invariant_loading_mount stu sp_subject sp_chapter now :
  invariant_loading (mount stu sp_subject sp_chapter now).
Proof. unfold invariant_loading; simpl. repeat split; done. Qed.

Ltac same_step :=
  simpl; repeat match goal with H : step _ = _ |- _ => rewrite H end.

Lemma invariant_loading_handle now s e s' :
  invariant s → invariant_loading s → handle now s e = Some s' →
  invariant_loading s'.
Proof.
  intros Hinv (Hload & Hfl & Hres & Hset) He.
  pose proof (idle_no_inflight s Hinv) as Hidle.
  destruct Hinv as (Hshape & _).
  destruct e.
  - handle_cases He. unfold invariant_loading. same_step. repeat split; tauto.
  - handle_cases He. unfold invariant_loading. same_step. repeat split; tauto.
  - handle_cases He. unfold invariant_loading. same_step. repeat split; tauto.
  - (* ClickStart *)
    handle_cases He. unfold invariant_loading; simpl.
    rewrite !Hidle by assumption. repeat split; done.
  - (* GenerateSettled *)
    simpl in He. destruct (inflight s !! k) as [[b|b]|] eqn:Hk; try done.
    injection He as <-.
    destruct Hshape as [Hn | [(b' & Hb & Hstep & _) | (b' & qz & Hb & _)]];
      [by rewrite Hn in Hk | |
       by destruct (inflight_singleton _ _ _ _ Hb Hk) as (_ & [=] & _)].
    destruct (inflight_singleton _ _ _ _ Hb Hk) as (_ & _ & Hdel).
    assert (error s = None) as Herr by (apply Hfl; by rewrite Hb).
    unfold handleStartQuiz_resume, invariant_loading.
    destruct o as [[qz|]|err]; [destruct (len (questions qz) =? 0)|..]; simpl;
      rewrite Hdel; repeat split; try done; try congruence.
    all: by destruct (mentions_timeout err).
  - handle_cases He. unfold invariant_loading. same_step. repeat split; tauto.
  - handle_cases He. unfold invariant_loading. same_step. repeat split; tauto.
  - handle_cases He. unfold invariant_loading. same_step. repeat split; tauto.
  - (* ClickSubmit *)
    simpl in He. destruct (shown_question s) as [[qz q]|] eqn:Hq; [|done].
    apply shown_question_Some in Hq as (Hstep & Hquiz & _).
    destruct (negb (isLast qz s)); [done|].
    destruct (negb (allAnswered qz s)); [done|].
    destruct (loading s) eqn:Hl; [done|]. injection He as <-.
    unfold handleSubmitQuiz, invariant_loading. rewrite Hquiz; simpl.
    rewrite Hidle by done. repeat split; try done; congruence.
  - (* SubmitSettled *)
    simpl in He. destruct (inflight s !! k) as [[b|b]|] eqn:Hk; try done.
    injection He as <-.
    destruct Hshape as [Hn | [(b' & Hb & _) | (b' & qz & Hb & Hstep & _)]];
      [by rewrite Hn in Hk |
       by destruct (inflight_singleton _ _ _ _ Hb Hk) as (_ & [=] & _) |].
    destruct (inflight_singleton _ _ _ _ Hb Hk) as (_ & _ & Hdel).
    assert (error s = None) as Herr by (apply Hfl; by rewrite Hb).
    unfold handleSubmitQuiz_resume, invariant_loading.
    destruct o as [data|err]; simpl; rewrite Hdel;
      repeat split; try done; congruence.
  - (* ClickNewQuiz *)
    handle_cases He. unfold invariant_loading; simpl.
    repeat split; try tauto. intros _. rewrite Hres; done.
Qed.

Lemma reachable_invariant_loading s : reachable s → invariant_loading s.
Proof.
  induction 1 as [|s now e s' Hs IH He]; [apply invariant_loading_mount|].
  eapply invariant_loading_handle; eauto using reachable_invariant.
Qed.

(** *** The requests that are sent *)

Lemma truthy_nonempty (x : string) : truthy x = true → x ≠ "".
Proof. unfold truthy. intros H ->. done. Qed.

Lemma truthy_opt_nonempty (o : option string) :
  truthy_opt o = true → ∃ v, o = Some v ∧ v ≠ "".
Proof. destruct o as [v|]; [|done]. intros H%truthy_nonempty. eauto. Qed.

Lemma well_formed_request_frame s s' r :
  quiz s' = quiz s → student s' = student s →
  well_formed_request s r → well_formed_request s' r.
Proof. intros Hq Hst. destruct r; simpl; by rewrite ?Hq, ?Hst. Qed.

Lemma invariant_requests_mount stu sp_subject sp_chapter now :
  invariant_requests (mount stu sp_subject sp_chapter now).
Proof. split; simpl; [constructor | done]. Qed.

Lemma invariant_requests_handle now s e s' :
  invariant s → invariant_requests s → handle now s e = Some s' →
  invariant_requests s'.
Proof.
  intros Hinv [Hreq Hoff] He.
  pose proof (idle_no_inflight s Hinv) as Hidle.
  destruct Hinv as (Hshape & Hsetup & _).
  assert (∀ s1, inflight s1 = inflight s → quiz s1 = quiz s → student s1 = student s →
                answers s1 = answers s → step s1 = step s → invariant_requests s1)
    as Hframe.
  { intros s1 Hi Hq Hst Ha Hs. split.
    - rewrite Hi. eapply Forall_impl; [exact Hreq|].
      intros r. by apply well_formed_request_frame.
    - rewrite Hs, Hq, Ha. exact Hoff. }
  destruct e.
  - handle_cases He. by apply Hframe.
  - handle_cases He. by apply Hframe.
  - handle_cases He. by apply Hframe.
  - (* ClickStart *)
    simpl in He. destruct (step s) eqn:Hstep; try done.
    destruct (negb (truthy (subject s))) eqn:Hsub; [done|].
    destruct (negb (truthy (chapterId s))) eqn:Hch; [done|].
    destruct (loading s) eqn:Hl; [done|]. injection He as <-.
    unfold handleStartQuiz. rewrite Hsub, Hch. split; simpl.
    + rewrite Hidle by done. repeat constructor; simpl;
        apply truthy_nonempty; by apply negb_false_iff.
    + by rewrite Hstep.
  - (* GenerateSettled *)
    simpl in He. destruct (inflight s !! k) as [[b|b]|] eqn:Hk; try done.
    injection He as <-.
    destruct Hshape as [Hn | [(b' & Hb & Hstep & _) | (b' & qz & Hb & _)]];
      [by rewrite Hn in Hk | |
       by destruct (inflight_singleton _ _ _ _ Hb Hk) as (_ & [=] & _)].
    destruct (inflight_singleton _ _ _ _ Hb Hk) as (_ & _ & Hdel).
    unfold handleStartQuiz_resume.
    destruct o as [[qz|]|err]; [destruct (len (questions qz) =? 0)|..];
      split; simpl; rewrite ?Hdel; try constructor; try congruence.
    intros _ qz' _ k' v Hkv. by rewrite lookup_empty in Hkv.
  - (* ClickOption *)
    simpl in He. destruct (shown_question s) as [[qz q]|] eqn:Hq; [|done].
    destruct (options q !! i) as [opt|] eqn:Hopt; [|done]. injection He as <-.
    apply shown_question_Some in Hq as (Hstep & Hquiz & _ & Hin & _).
    split; simpl.
    + eapply Forall_impl; [exact Hreq|]. intros r. by apply well_formed_request_frame.
    + intros _ qz' Hqz' k v Hkv. assert (qz' = qz) as -> by congruence.
      destruct (decide (id q = k)) as [<-|Hne].
      * rewrite lookup_insert_eq in Hkv. injection Hkv as <-.
        exists q. repeat split; [done..|]. by eapply list_elem_of_lookup_2.
      * rewrite lookup_insert_ne in Hkv by done.
        eapply Hoff; eauto. congruence.
  - handle_cases He. by apply Hframe.
  - handle_cases He. by apply Hframe.
  - (* ClickSubmit *)
    simpl in He. destruct (shown_question s) as [[qz q]|] eqn:Hq; [|done].
    apply shown_question_Some in Hq as (Hstep & Hquiz & _).
    destruct (negb (isLast qz s)); [done|].
    destruct (allAnswered qz s) eqn:Hall; [|done].
    destruct (loading s) eqn:Hl; [done|]. injection He as <-.
    unfold handleSubmitQuiz. rewrite Hquiz. split; simpl.
    + rewrite Hidle by done. repeat constructor. simpl.
      exists qz. repeat split; [done | |].
      * apply Hoff; [congruence | done].
      * intros q' Hq'. apply truthy_opt_nonempty.
        unfold allAnswered in Hall. rewrite forallb_forall in Hall.
        apply Hall. by apply list_elem_of_In.
    + exact Hoff.
  - (* SubmitSettled *)
    simpl in He. destruct (inflight s !! k) as [[b|b]|] eqn:Hk; try done.
    injection He as <-.
    destruct Hshape as [Hn | [(b' & Hb & _) | (b' & qz & Hb & Hstep & _)]];
      [by rewrite Hn in Hk |
       by destruct (inflight_singleton _ _ _ _ Hb Hk) as (_ & [=] & _) |].
    destruct (inflight_singleton _ _ _ _ Hb Hk) as (_ & _ & Hdel).
    unfold handleSubmitQuiz_resume.
    destruct o as [data|err]; split; simpl; rewrite ?Hdel; try constructor.
    + intros _. apply Hoff. congruence.
    + intros _. apply Hoff. congruence.
  - (* ClickNewQuiz *)
    simpl in He. destruct (step s) eqn:Hstep; try done.
    destruct (result s); [|done]. injection He as <-. split; simpl; [|done].
    destruct Hshape as [-> | [(b' & _ & ? & _) | (b' & qz & _ & ? & _)]];
      [constructor | congruence..].
Qed.

Lemma reachable_invariant_requests s : reachable s → invariant_requests s.
Proof.
  induction 1 as [|s now e s' Hs IH He]; [apply invariant_requests_mount|].
  eapply invariant_requests_handle; eauto using reachable_invariant.
Qed.

(** X1: At any moment at most one request of the page is in flight, the page
    is loading exactly while one is, and while one is neither Start Quiz nor
    Submit Quiz can be clicked. *)
Theorem one_request_at_a_time s :
  reachable s →
  (length (inflight s) <= 1)%nat
  ∧ (loading s = true ↔ inflight s ≠ [])
  ∧ (inflight s ≠ [] →
       ∀ now, handle now s ClickStart = None ∧ handle now s ClickSubmit = None).
Proof.
  intros Hs. pose proof (reachable_invariant s Hs) as Hinv.
  destruct (reachable_invariant_loading s Hs) as (Hload & Hfl & _).
  split; [|split].
  - destruct (inflight_at_most_one s Hinv) as [-> | [r ->]]; simpl; lia.
  - split; [done | by intros []%Hfl].
  - intros [Hl _]%Hfl now. unfold handle. rewrite Hl. split.
    + destruct (step s); try done. by rewrite orb_true_r.
    + destruct (shown_question s) as [[qz q]|]; [|done].
      destruct (negb (isLast qz s)); [done|]. by rewrite orb_true_r.
Qed.

Lemma one_request_at_a_time_witness :
  (length (inflight (after sample_submitting)) <= 1)%nat
  ∧ handle 90500 (after sample_submitting) ClickSubmit = None.
Proof.
  destruct (one_request_at_a_time (after sample_submitting)) as (Hlen & _ & Hno).
  - apply after_reachable.
  - split; [exact Hlen|]. apply Hno. vm_compute. discriminate.
Defined.

(** X2: Every generation request in flight asks for five questions, for a
    subject and a chapter that are not empty, on behalf of the student of
    the page. *)
Theorem generation_request_shape s b :
  reachable s → Generate b ∈ inflight s →
  num_questions b = 5 ∧ gen_subject b ≠ "" ∧ gen_chapter_id b ≠ ""
  ∧ gen_student_id b = student s ∧ step s = Setup.
Proof.
  intros Hs Hb. destruct (reachable_invariant_requests s Hs) as [Hreq _].
  rewrite Forall_forall in Hreq. destruct (Hreq _ Hb) as (? & ? & ? & ?).
  repeat split; try done.
  destruct (reachable_invariant s Hs)
    as ([Hn | [(b' & _ & ? & _) | (b' & qz & Hfl & _)]] & _); [|done|].
  - rewrite Hn in Hb. by apply elem_of_nil in Hb.
  - rewrite Hfl in Hb. by apply list_elem_of_singleton in Hb.
Qed.

Lemma generation_request_shape_witness :
  ∃ b, inflight (after [(59000, ClickStart)]) = [Generate b]
       ∧ num_questions b = 5 ∧ gen_subject b ≠ "".
Proof.
  eexists. split; [vm_compute; reflexivity|].
  destruct (generation_request_shape (after [(59000, ClickStart)])
              {| gen_student_id := Some "average_student"; gen_subject := "math";
                 gen_chapter_id := "ch1_linear_equations"; num_questions := 5 |})
    as (H5 & Hsub & _).
  - apply after_reachable.
  - vm_compute. apply list_elem_of_singleton. reflexivity.
  - split; [exact H5 | exact Hsub].
Defined.

(** X3: Every submission in flight carries the id of the quiz on the page and,
    for each of its questions, a non-empty answer; and each answer it
    carries is an option of a question with that id. *)
Theorem submit_request_shape s b :
  reachable s → Submit b ∈ inflight s →
  ∃ qz, step s = Quiz ∧ quiz s = Some qz ∧ sub_quiz_id b = quiz_id qz
        ∧ sub_student_id b = student s
        ∧ (∀ q, q ∈ questions qz → ∃ v, sub_answers b !! id q = Some v ∧ v ≠ "")
        ∧ (∀ k v, sub_answers b !! k = Some v →
             ∃ q, q ∈ questions qz ∧ id q = k ∧ v ∈ options q).
Proof.
  intros Hs Hb. destruct (reachable_invariant_requests s Hs) as [Hreq _].
  rewrite Forall_forall in Hreq.
  destruct (Hreq _ Hb) as (qz & Hquiz & Hid & Hst & Hoff & Hall).
  exists qz. repeat split; try done.
  destruct (reachable_invariant s Hs)
    as ([Hn | [(b' & Hfl & _) | (b' & qz' & _ & ? & _)]] & _); [| |done].
  - rewrite Hn in Hb. by apply elem_of_nil in Hb.
  - rewrite Hfl in Hb. by apply list_elem_of_singleton in Hb.
Qed.

Lemma submit_request_shape_witness :
  ∃ b, inflight (after sample_submitting) = [Submit b]
       ∧ sub_quiz_id b = "quiz-1" ∧ sub_answers b !! 5 = Some "D".
Proof.
  destruct (inflight (after sample_submitting)) as [|[g|b] l] eqn:Hfl;
    try (vm_compute in Hfl; discriminate).
  assert (l = []) as -> by (vm_compute in Hfl; congruence).
  exists b. split; [reflexivity|].
  destruct (submit_request_shape (after sample_submitting) b)
    as (qz & _ & Hquiz & Hid & _).
  - apply after_reachable.
  - rewrite Hfl. apply list_elem_of_singleton. reflexivity.
  - vm_compute in Hquiz. injection Hquiz as <-.
    split; [exact Hid|]. vm_compute in Hfl. by injection Hfl as <-.
Defined.

(** X4: Outside the setup step every recorded answer is one of the options of
    a question of the quiz with that id. *)
Theorem answers_are_offered_options s qz k v :
  reachable s → step s ≠ Setup → quiz s = Some qz → answers s !! k = Some v →
  ∃ q, q ∈ questions qz ∧ id q = k ∧ v ∈ options q.
Proof.
  intros Hs Hstep Hquiz Hkv.
  destruct (reachable_invariant_requests s Hs) as [_ Hoff]. by eapply Hoff.
Qed.

Lemma answers_are_offered_options_witness :
  ∃ q, q ∈ questions sample_quiz ∧ id q = 3 ∧ "C" ∈ options q.
Proof.
  apply (answers_are_offered_options (after sample_answering) sample_quiz 3 "C").
  - apply after_reachable.
  - vm_compute. discriminate.
  - vm_compute. reflexivity.
  - vm_compute. reflexivity.
Defined.

(** *** Setup *)

(** X5: Choosing a subject empties the chosen chapter, so Start Quiz cannot be
    clicked until a chapter is chosen again. *)
Theorem subject_change_clears_chapter now s i s' :
  handle now s (ClickSubject i) = Some s' →
  (∃ o, subjectOptions s !! i = Some o ∧ subject s' = subject_id o)
  ∧ chapterId s' = ""
  ∧ ∀ now', handle now' s' ClickStart = None.
Proof.
  intros He. simpl in He. destruct (step s) eqn:Hstep; try done.
  destruct (subjectOptions s !! i) as [o|] eqn:Ho; [|done]. injection He as <-.
  split; [eauto|]. split; [done|]. intros now'. simpl. rewrite Hstep.
  by rewrite orb_true_r.
Qed.

Lemma subject_change_clears_chapter_witness :
  chapterId (after [(100, SubjectsFetched sample_subjects); (200, ClickSubject 1)]) = "".
Proof.
  destruct (subject_change_clears_chapter 200
              (after [(100, SubjectsFetched sample_subjects)]) 1
              (after [(100, SubjectsFetched sample_subjects); (200, ClickSubject 1)]))
    as (_ & H & _).
  - vm_compute. reflexivity.
  - exact H.
Defined.

(** X6: When the generation request is rejected the page stays in the setup
    step without a quiz and with its answers, shows in its banner the
    time-out text if the error mentions a timeout and the connection text
    otherwise, and lets Start Quiz be clicked again as long as a subject and
    a chapter are chosen. *)
Theorem failed_generation_stays_in_setup now s k err s' :
  reachable s → handle now s (GenerateSettled k (Rejected err)) = Some s' →
  step s' = Setup ∧ quiz s' = None ∧ answers s' = answers s
  ∧ loading s' = false ∧ inflight s' = []
  ∧ error s' = Some (if mentions_timeout err then "Server timed out. Try again."
                     else "Failed to generate quiz. Check your connection.")
  ∧ banner s' = error s'
  ∧ (truthy (subject s') = true → truthy (chapterId s') = true →
       ∀ now', is_Some (handle now' s' ClickStart)).
Proof.
  intros Hs He. simpl in He.
  destruct (inflight s !! k) as [[b|b]|] eqn:Hk; try done. injection He as <-.
  destruct (reachable_invariant s Hs)
    as ([Hfl | [(b' & Hfl & Hstep & _) | (b' & qz' & Hfl & _)]] & Hset & _).
  - by rewrite Hfl in Hk.
  - destruct (inflight_singleton _ _ _ _ Hfl Hk) as (_ & _ & Hdel).
    unfold banner; simpl. rewrite Hdel, Hstep.
    repeat split; auto.
    + by destruct (mentions_timeout err).
    + intros Hsub Hch now'. by rewrite Hsub, Hch.
  - destruct (inflight_singleton _ _ _ _ Hfl Hk) as (_ & [=] & _).
Qed.

Lemma failed_generation_witness :
  banner (after [(59000, ClickStart);
                 (179000, GenerateSettled 0 (Rejected
                    {| name := "AxiosError";
                       message := Some "timeout of 120000ms exceeded" |}))])
  = Some "Server timed out. Try again.".
Proof.
  destruct (failed_generation_stays_in_setup 179000 (after [(59000, ClickStart)]) 0
              {| name := "AxiosError"; message := Some "timeout of 120000ms exceeded" |}
              (after [(59000, ClickStart);
                      (179000, GenerateSettled 0 (Rejected
                         {| name := "AxiosError";
                            message := Some "timeout of 120000ms exceeded" |}))]))
    as (_ & _ & _ & _ & _ & Herr & Hban & _).
  - apply after_reachable.
  - vm_compute. reflexivity.
  - rewrite Hban, Herr. reflexivity.
Defined.

(** *** Failed submissions *)

(** X7: The text of a failed submission is stored but never displayed: the
    banner stands in the setup view only, the page is in the quiz step when
    the text is stored, and in no reachable state does the banner hold
    it. *)
Theorem submit_failure_is_never_displayed s :
  reachable s →
  banner s ≠ Some submit_failed_text
  ∧ ∀ now k err s', handle now s (SubmitSettled k (Rejected err)) = Some s' →
      error s' = Some submit_failed_text ∧ step s' = Quiz ∧ banner s' = None.
Proof.
  intros Hs. split.
  - destruct (reachable_invariant_loading s Hs) as (_ & _ & _ & Hset).
    unfold banner. destruct (step s); try done.
    destruct (error s) as [e|] eqn:He; [|done].
    destruct (truthy e); [|done]. intros [= ->]. by apply Hset.
  - intros now k err s' He. simpl in He.
    destruct (inflight s !! k) as [[b|b]|] eqn:Hk; try done. injection He as <-.
    destruct (reachable_invariant s Hs)
      as ([Hfl | [(b' & Hfl & _) | (b' & qz' & Hfl & Hstep & _)]] & _).
    + by rewrite Hfl in Hk.
    + destruct (inflight_singleton _ _ _ _ Hfl Hk) as (_ & [=] & _).
    + unfold banner; simpl. by rewrite Hstep.
Qed.

Lemma submit_failure_is_never_displayed_witness :
  banner (after (sample_submitting ++
     [(91000, SubmitSettled 0 (Rejected {| name := "AxiosError";
                                           message := Some "Network Error" |}))]))
  = None.
Proof.
  destruct (submit_failure_is_never_displayed (after sample_submitting)) as [_ H].
  - apply after_reachable.
  - destruct (H 91000 0%nat {| name := "AxiosError"; message := Some "Network Error" |}
                (after (sample_submitting ++
                   [(91000, SubmitSettled 0 (Rejected {| name := "AxiosError";
                                                         message := Some "Network Error" |}))])))
      as (_ & _ & Hban).
    + vm_compute. reflexivity.
    + exact Hban.
Defined.

(** X8: After a failed submission Submit Quiz can be clicked again as soon as
    the page shows the last question with every question answered, and the
    new request carries the answers the page holds. *)
Theorem failed_submit_can_be_retried now s k err s' qz :
  reachable s → handle now s (SubmitSettled k (Rejected err)) = Some s' →
  quiz s' = Some qz → isLast qz s' = true → allAnswered qz s' = true →
  ∀ now', ∃ s'' b, handle now' s' ClickSubmit = Some s''
                   ∧ inflight s'' = [Submit b]
                   ∧ sub_answers b = answers s ∧ sub_quiz_id b = quiz_id qz.
Proof.
  intros Hs He Hquiz Hlast Hall now'.
  assert (reachable s') as Hs' by (by eapply reachable_step).
  simpl in He. destruct (inflight s !! k) as [[b|b]|] eqn:Hk; try done.
  injection He as <-.
  destruct (reachable_invariant s Hs)
    as ([Hfl | [(b' & Hfl & _) | (b' & qz' & Hfl & Hstep & _ & Hquiz' & _)]] & _ & Hqz & _).
  - by rewrite Hfl in Hk.
  - destruct (inflight_singleton _ _ _ _ Hfl Hk) as (_ & [=] & _).
  - destruct (inflight_singleton _ _ _ _ Hfl Hk) as (_ & _ & Hdel).
    simpl in Hquiz. assert (qz' = qz) as -> by congruence.
    destruct Hqz as (qz'' & Hq2 & _ & Hi); [congruence|].
    assert (qz'' = qz) as -> by congruence.
    unfold handle, shown_question; simpl. rewrite Hstep, Hquiz'.
    unfold at_index. destruct (Z.ltb_spec (currentQ s) 0) as [|_]; [lia|].
    destruct (questions qz !! Z.to_nat (currentQ s)) as [q|] eqn:Hq.
    2: { apply lookup_ge_None in Hq. unfold len in Hi. lia. }
    unfold isLast, allAnswered in *. simpl in Hlast, Hall |- *.
    rewrite Hlast, Hall. simpl.
    unfold handleSubmitQuiz; simpl. rewrite Hquiz'.
    eexists _, _. split; [reflexivity|]. simpl. by rewrite Hdel.
Qed.

Lemma failed_submit_can_be_retried_witness :
  ∃ s'' b,
    handle 95000
      (after (sample_submitting ++
         [(91000, SubmitSettled 0 (Rejected {| name := "AxiosError";
                                               message := Some "Network Error" |}))]))
      ClickSubmit = Some s''
    ∧ inflight s'' = [Submit b]
    ∧ sub_answers b = answers (after sample_submitting)
    ∧ sub_quiz_id b = quiz_id sample_quiz.
Proof.
  apply (failed_submit_can_be_retried 91000 (after sample_submitting) 0
           {| name := "AxiosError"; message := Some "Network Error" |}).
  - apply after_reachable.
  - vm_compute. reflexivity.
  - vm_compute. reflexivity.
  - vm_compute. reflexivity.
  - vm_compute. reflexivity.
Defined.

(** *** Navigation and progress *)

(** X9: Previous undoes Next: whenever Next can be clicked, Previous can be
    clicked right after and gives back the state the page was in. *)
Theorem previous_undoes_next now now' s s1 :
  handle now s ClickNext = Some s1 → handle now' s1 ClickPrevious = Some s.
Proof.
  intros He. simpl in He.
  destruct (shown_question s) as [[qz q]|] eqn:Hq; [|done].
  destruct (isLast qz s) eqn:Hlast; [done|].
  destruct (negb (truthy_opt (answers s !! id q))); [done|]. injection He as <-.
  apply shown_question_Some in Hq as (Hstep & Hquiz & Hi & _).
  unfold isLast in Hlast. apply Z.eqb_neq in Hlast.
  unfold handle, shown_question; simpl. rewrite Hstep, Hquiz.
  unfold at_index. destruct (Z.ltb_spec (currentQ s + 1) 0) as [|_]; [lia|].
  destruct (questions qz !! Z.to_nat (currentQ s + 1)) as [q'|] eqn:Hq'.
  2: { apply lookup_ge_None in Hq'. unfold len in *. lia. }
  destruct (Z.ltb_spec 0 (currentQ s + 1)) as [_|]; [|lia].
  f_equal. destruct s; unfold setCurrentQ; simpl. f_equal. lia.
Qed.

Lemma previous_undoes_next_witness :
  handle 67000 (after (take 4 sample_answering)) ClickPrevious
  = Some (after (take 3 sample_answering)).
Proof.
  apply (previous_undoes_next 66000). vm_compute. reflexivity.
Defined.

(** X10: In the quiz step the progress bar is never empty and never overflows,
    and it is full exactly on the last question. *)
Theorem progress_width_bounds s qz :
  reachable s → step s = Quiz → quiz s = Some qz →
  (0 < progress_width qz s)%Q ∧ (progress_width qz s <= 100)%Q
  ∧ ((progress_width qz s == 100)%Q ↔ isLast qz s = true).
Proof.
  intros Hs Hstep Hquiz.
  destruct (reachable_invariant s Hs) as (_ & _ & Hqz & _).
  destruct Hqz as (qz' & Hquiz' & _ & Hi); [congruence|].
  assert (qz' = qz) as -> by congruence.
  unfold progress_width, isLast. rewrite Z.eqb_eq.
  destruct (len (questions qz)) as [|n|n]; try lia.
  unfold Qlt, Qle, Qeq, Qdiv, Qmult, Qinv, inject_Z; simpl. lia.
Qed.

Lemma progress_width_bounds_witness :
  (progress_width sample_quiz (after sample_answering) == 100)%Q.
Proof.
  destruct (progress_width_bounds (after sample_answering) sample_quiz)
    as (_ & _ & H).
  - apply after_reachable.
  - vm_compute. reflexivity.
  - vm_compute. reflexivity.
  - apply H. vm_compute. reflexivity.
Defined.

End QuizPageMore.

(** ** More properties of the learning page *)

Module LearningPageMore.

Import Js LearningPage LearningPageFacts.

(** *** The history *)

Lemma handle_prefix now s e s' :
  handle now s e = Some s' → messages s `prefix_of` messages s'.
Proof.
  intros He.
  destruct (handle_messages _ _ _ _ He)
    as [-> | [(_ & u & _ & _ & ->) | (k & o & a & _ & _ & ->)]];
    [done | by apply prefix_app_r..].
Qed.

(** X11: The history is append-only: whatever happens on the page, the messages
    there were stay where they were, unchanged. *)
Theorem history_is_append_only s0 s :
  reachable_from s0 s → messages s0 `prefix_of` messages s.
Proof.
  induction 1 as [|s now e s' _ IH He]; [done|].
  etrans; [exact IH | by eapply handle_prefix].
Qed.

Lemma history_prefix_length s0 s :
  reachable_from s0 s → ∃ l, messages s = messages s0 ++ l.
Proof.
  induction 1 as [|s now e s' _ [l Hl] He]; [exists []; by rewrite app_nil_r|].
  destruct (handle_prefix _ _ _ _ He) as [l' Hl'].
  exists (l ++ l'). by rewrite Hl', Hl, app_assoc.
Qed.

Lemma reachable_from_exchange t0 b s s' :
  exchange t0 b s = Some s' → reachable_from s s'.
Proof.
  unfold exchange. destruct (chatService_ask b) as [d o]. intros H.
  apply bind_Some in H as (s1 & H1 & H). apply bind_Some in H as (s2 & H2 & H3).
  eapply reachable_next; [|exact H3].
  destruct (frontend_timeout <=? d).
  - eapply reachable_next; [|exact H2]. eapply reachable_next; [|exact H1].
    constructor.
  - injection H2 as <-. eapply reachable_next; [|exact H1]. constructor.
Qed.

Lemma history_is_append_only_witness :
  ∃ s', exchange 1000 quick_backend sample_chat = Some s'
        ∧ messages sample_chat `prefix_of` messages s'.
Proof.
  destruct (exchange 1000 quick_backend sample_chat) as [s'|] eqn:Hex;
    [|vm_compute in Hex; discriminate].
  exists s'. split; [reflexivity|].
  apply history_is_append_only. by eapply reachable_from_exchange.
Defined.




(** X13: Once the history holds a message and another has been added, the quick
    questions are gone for good: none of them can be clicked in any later
    state. *)
Theorem quick_questions_only_before_first_send s0 s :
  reachable_from s0 s → messages s0 ≠ [] → messages s ≠ messages s0 →
  ∀ now i, handle now s (ClickQuick i) = None.
Proof.
  intros Hs Hne Hchg now i.
  destruct (history_prefix_length s0 s Hs) as [l Hl].
  unfold handle. destruct (crashed s); [done|].
  destruct (Z.leb_spec (len (messages s)) 1) as [Hle|]; [|done].
  exfalso. rewrite Hl in Hle, Hchg. unfold len in Hle. rewrite length_app in Hle.
  destruct (messages s0); [done|]. destruct l; [by rewrite app_nil_r in Hchg|].
  simpl in Hle. lia.
Qed.

Lemma quick_questions_witness :
  ∃ s', exchange 1000 quick_backend greeted_chat = Some s'
        ∧ handle 4000 s' (ClickQuick 0) = None.
Proof.
  destruct (exchange 1000 quick_backend greeted_chat) as [s'|] eqn:Hex;
    [|vm_compute in Hex; discriminate].
  exists s'. split; [reflexivity|].
  apply (quick_questions_only_before_first_send greeted_chat s').
  - by eapply reachable_from_exchange.
  - vm_compute. discriminate.
  - vm_compute in Hex. injection Hex as <-. vm_compute. discriminate.
Defined.

(** *** Sending *)

Lemma bodies_alter (f : Call → Call) k (l : list Call) :
  (∀ c, body (f c) = body c) → body <$> alter f k l = body <$> l.
Proof.
  intros Hf. revert k. induction l as [|c l IH]; intros [|k]; simpl; try done.
  - by rewrite Hf.
  - f_equal. apply IH.
Qed.

(** What one event does to the requests and to the student's messages: it
    leaves both as they are, or it adds one request and one message of the
    student with the text of that request. *)
Lemma handle_request now s e s' :
  handle now s e = Some s' →
  student s' = student s ∧ subjectId s' = subjectId s ∧ chapterId s' = chapterId s
  ∧ ((body <$> calls s' = body <$> calls s
      ∧ ∃ l, messages s' = messages s ++ l ∧ by_role user l = [])
     ∨ ∃ u b, messages s' = messages s ++ [u] ∧ role u = user
              ∧ body <$> calls s' = (body <$> calls s) ++ [b]
              ∧ sent_for s b ∧ ask_question b = content u).
Proof.
  intros He. unfold handle in He. destruct (crashed s); [done|].
  destruct e; simpl in He.
  - destruct (isLoading s); simplify_eq. repeat split; try done.
    left. split; [done|]. exists []. by rewrite app_nil_r.
  - repeat case_match; simplify_eq. repeat split; try done.
    left. split; [done|]. exists []. by rewrite app_nil_r.
  - destruct (negb (truthy (trim (input s)))) eqn:Hin; [done|].
    destruct (isLoading s) eqn:Hld; [done|]. simpl in He. injection He as <-.
    unfold handleSendMessage.
    assert (∀ P : Prop, (body <$> calls s = body <$> calls s
              ∧ ∃ l, messages s = messages s ++ l ∧ by_role user l = []) ∨ P) as Hsame.
    { intros P. left. split; [done|]. exists []. by rewrite app_nil_r. }
    destruct (student s) as [stu|] eqn:Hstu; [|by repeat split].
    destruct (subjectId s) as [sid|] eqn:Hsid; [|by repeat split].
    destruct (chapterId s) as [cid|] eqn:Hcid; [|by repeat split].
    rewrite Hin, Hld. simpl.
    destruct (truthy sid) eqn:Hs1; simpl; [|by repeat split].
    destruct (truthy cid) eqn:Hs2; simpl; [|by repeat split].
    repeat split; try done. right. eexists _, _.
    split; [reflexivity|]. split; [reflexivity|].
    split; [by rewrite fmap_app|]. split; [|reflexivity].
    unfold sent_for; simpl. rewrite Hstu, Hsid, Hcid.
    apply negb_false_iff in Hin. repeat split; eauto.
  - destruct (calls s !! k) as [c|]; [|done]. destruct (timer c); simplify_eq.
    repeat split; try done. left. simpl. split; [by apply bodies_alter|].
    exists []. by rewrite app_nil_r.
  - destruct (calls s !! k) as [c|]; [|done]. destruct (settled c); simplify_eq.
    unfold handleSendMessage_resume, handleSendMessage_catch.
    destruct o as [[r|]|err]; simpl; repeat split; try done; left.
    + split; [by rewrite !bodies_alter|]. by eexists [_].
    + split; [by rewrite !bodies_alter|]. exists []. by rewrite app_nil_r.
    + split; [by rewrite !bodies_alter|]. by eexists [_].
Qed.

(** X14: The questions that go to the backend are the student's messages:
    whatever happens on the page, the requests made since a given moment
    carry, one for one and in the same order, the texts of the messages of
    the student added to the history since then; none of them is blank, and
    each is made for the student, the subject and the chapter of the page,
    which do not change. *)
Theorem requests_mirror_the_students_messages s0 s :
  reachable_from s0 s →
  student s = student s0 ∧ subjectId s = subjectId s0 ∧ chapterId s = chapterId s0
  ∧ ∃ l bs, messages s = messages s0 ++ l
            ∧ body <$> calls s = (body <$> calls s0) ++ bs
            ∧ ask_question <$> bs = content <$> by_role user l
            ∧ Forall (sent_for s0) bs.
Proof.
  induction 1 as [|s now e s' _ (Hst & Hsu & Hch & l & bs & Hm & Hb & Hq & Hall) He].
  - repeat split. exists [], []. by rewrite !app_nil_r.
  - destruct (handle_request _ _ _ _ He)
      as (Hst' & Hsu' & Hch' & [(Hb' & l' & Hm' & Hl') | (u & b & Hm' & Hu & Hb' & Hsent & Hqu)]).
    + split; [congruence|]. split; [congruence|]. split; [congruence|].
      exists (l ++ l'), bs. rewrite Hm', Hm, Hb', Hb, app_assoc.
      repeat split; try done. unfold by_role in *. by rewrite filter_app, Hl', app_nil_r.
    + split; [congruence|]. split; [congruence|]. split; [congruence|].
      exists (l ++ [u]), (bs ++ [b]). rewrite Hm', Hm, Hb', Hb, !app_assoc.
      repeat split; try done.
      * unfold by_role in *. rewrite filter_app, !fmap_app, Hq.
        rewrite filter_cons_True by done. simpl. by rewrite Hqu.
      * apply Forall_app. split; [done|]. apply Forall_singleton.
        unfold sent_for in *. by rewrite <- Hst, <- Hsu, <- Hch.
Qed.

Lemma requests_mirror_witness :
  ∃ s', exchange 1000 quick_backend sample_chat = Some s'
        ∧ (ask_question ∘ body) <$> calls s' = ["Explain the key concepts"].
Proof.
  destruct (exchange 1000 quick_backend sample_chat) as [s'|] eqn:Hex;
    [|vm_compute in Hex; discriminate].
  exists s'. split; [reflexivity|].
  destruct (requests_mirror_the_students_messages sample_chat s')
    as (_ & _ & _ & l & bs & Hm & Hb & Hq & _).
  - by eapply reachable_from_exchange.
  - rewrite list_fmap_compose, Hb.
    change (body <$> calls sample_chat) with (@nil AskBody). rewrite app_nil_l, Hq.
    vm_compute in Hex. injection Hex as <-.
    change (messages sample_chat) with (@nil Message) in Hm. rewrite app_nil_l in Hm.
    rewrite <- Hm. reflexivity.
Defined.

(** X15: With a backend that answers in the end, the warning of a timeout is
    raised exactly when the answer takes 120000ms or more, and no warning
    is left otherwise: whether the 15000ms have passed makes no
    difference. *)
Theorem timeout_warning_iff_transport_deadline t0 d r s :
  accepted s →
  ∃ s', exchange t0 {| delay := d; reply := Resolved (Some r) |} s = Some s'
        ∧ (transport_timeout <= d → error s' = Some timeout_warning)
        ∧ (d < transport_timeout → error s' = None)
        ∧ (error s' = Some timeout_warning ↔ transport_timeout <= d).
Proof.
  intros Hacc.
  destruct (submit_accepted t0 s Hacc)
    as (u & c & Hh & Hu & Hcu & Hset & Htim & Hm & Hcalls & Hl & Hup).
  assert (calls (handleSendMessage t0 s) !! length (calls s) = Some c) as Hk.
  { rewrite Hcalls. by apply list_lookup_middle. }
  assert (error (handleSendMessage t0 s) = None) as Herr.
  { destruct Hacc as (_ & Hin & Hld & (stu & Hstu) & (sid & Hsid & Hsid') & (cid & Hcid & Hcid')).
    unfold handleSendMessage. by rewrite Hin, Hld, Hstu, Hsid, Hcid, Hsid', Hcid'. }
  unfold exchange, chatService_ask; simpl delay; simpl reply.
  destruct (Z.leb_spec transport_timeout d) as [Hd|Hd].
  - change (frontend_timeout <=? transport_timeout) with true. cbv iota.
    rewrite Hh. unfold mbind, option_bind, handle.
    rewrite Hup, Hk, Htim. rewrite setCalls_up, Hup. simpl.
    rewrite list_lookup_alter_eq, Hk. simpl. rewrite Hset.
    eexists. split; [reflexivity|]. simpl. repeat split; try done; lia.
  - rewrite Hh. unfold mbind, option_bind.
    destruct (frontend_timeout <=? d); unfold handle.
    + rewrite Hup, Hk, Htim. rewrite setCalls_up, Hup. simpl.
      rewrite list_lookup_alter_eq, Hk. simpl. rewrite Hset.
      eexists. split; [reflexivity|]. simpl. rewrite Herr.
      repeat split; try done; lia.
    + rewrite Hup, Hk, Hset. eexists. split; [reflexivity|]. simpl. rewrite Herr.
      repeat split; try done; lia.
Qed.

Lemma timeout_warning_witness :
  ∃ s', exchange 1000 slow_backend sample_chat = Some s' ∧ error s' = None.
Proof.
  destruct (timeout_warning_iff_transport_deadline 1000 20000 sample_response sample_chat)
    as (s' & Hex & _ & Hnone & _).
  - unfold accepted. vm_compute. repeat split; eauto.
  - exists s'. split; [exact Hex|]. apply Hnone. reflexivity.
Defined.

(** *** The session clock *)

Lemma read_digits_char acc (d : N) s :
  (d < 10)%N →
  read_digits acc (String (pretty_N_char d) s) = read_digits (10 * acc + Z.of_N d) s.
Proof.
  intros Hd.
  assert (d = 0 ∨ d = 1 ∨ d = 2 ∨ d = 3 ∨ d = 4 ∨ d = 5 ∨ d = 6 ∨ d = 7
          ∨ d = 8 ∨ d = 9)%N as Hcases by lia.
  repeat (destruct Hcases as [-> | Hcases]; [reflexivity|]). by subst.
Qed.

Lemma read_digits_pretty_go (x : N) s :
  (0 < x)%N → read_digits 0 (pretty_N_go x s) = read_digits (Z.of_N x) s.
Proof.
  revert s. induction (N.lt_wf_0 x) as [x _ IH]; intros s Hx.
  rewrite pretty_N_go_step by done.
  assert (x `mod` 10 < 10)%N as Hd by (apply N.mod_lt; lia).
  assert (Z.of_N x = 10 * Z.of_N (x `div` 10) + Z.of_N (x `mod` 10)) as Hx10.
  { rewrite (N.div_mod x 10) at 1 by lia. lia. }
  destruct (decide (x `div` 10 = 0)%N) as [H0 | Hpos].
  - rewrite H0 in *. rewrite pretty_N_go_0, read_digits_char by done. f_equal. lia.
  - rewrite IH; [|apply N.div_lt; lia | lia].
    rewrite read_digits_char by done. f_equal. lia.
Qed.

Lemma pretty_go_append (x : N) s t : pretty_N_go x s +:+ t = pretty_N_go x (s +:+ t).
Proof.
  revert s. induction (N.lt_wf_0 x) as [x _ IH]; intros s.
  destruct (decide (0 < x)%N) as [Hx|Hx].
  - rewrite (pretty_N_go_step x s), (pretty_N_go_step x (s +:+ t)) by done.
    rewrite IH by (apply N.div_lt; lia). reflexivity.
  - assert (x = 0%N) as -> by lia. by rewrite !pretty_N_go_0.
Qed.

Lemma read_digits_pretty (m : Z) t :
  0 <= m → read_digits 0 (pretty m +:+ t) = read_digits m t.
Proof.
  intros Hm. destruct m as [|p|p]; [done | | lia].
  change (pretty (Z.pos p)) with (pretty (N.pos p)).
  unfold pretty, pretty_N. destruct (decide (N.pos p = 0%N)) as [|_]; [done|].
  rewrite pretty_go_append. simpl append. by rewrite read_digits_pretty_go.
Qed.

Lemma read_digits_colon acc rest :
  read_digits acc (":" +:+ rest) = (acc, String ":" rest).
Proof. reflexivity. Qed.

Lemma read_seconds_table :
  forallb (λ r, match read_digits 0 (padStart 2 "0" (pretty r)) with
                | (v, EmptyString) =>
                    (v =? r) && (String.length (padStart 2 "0" (pretty r)) =? 2)%nat
                | _ => false
                end) (seqZ 0 60) = true.
Proof. vm_compute. reflexivity. Qed.

Lemma read_seconds (r : Z) :
  0 <= r < 60 →
  read_digits 0 (padStart 2 "0" (pretty r)) = (r, EmptyString)
  ∧ String.length (padStart 2 "0" (pretty r)) = 2%nat.
Proof.
  intros Hr. pose proof read_seconds_table as Ht.
  rewrite forallb_forall in Ht. specialize (Ht r).
  destruct (read_digits 0 (padStart 2 "0" (pretty r))) as [v rest].
  destruct rest; [|discriminate Ht; apply list_elem_of_In, elem_of_seqZ; lia].
  apply andb_true_iff in Ht as [Hv Hlen];
    [|apply list_elem_of_In, elem_of_seqZ; lia].
  apply Z.eqb_eq in Hv as ->. by apply Nat.eqb_eq in Hlen.
Qed.

(** X16: The clock reads back: for a count of seconds that is not negative the
    seconds field has two characters, the text shown parses to that very
    count, and so two different counts are never shown alike. *)
Theorem clock_reads_back s :
  0 <= s →
  read_clock (formatTime s) = Some s
  ∧ String.length (padStart 2 "0" (pretty (Z.rem s 60))) = 2%nat
  ∧ ∀ s', 0 <= s' → formatTime s' = formatTime s → s' = s.
Proof.
  assert (∀ x, 0 <= x → read_clock (formatTime x) = Some x
               ∧ String.length (padStart 2 "0" (pretty (Z.rem x 60))) = 2%nat)
    as Hread.
  { intros x Hx. unfold read_clock, formatTime.
    assert (0 <= Z.rem x 60 < 60) as Hr
      by (rewrite Z.rem_mod_nonneg by lia; apply Z.mod_pos_bound; lia).
    destruct (read_seconds _ Hr) as [Hsec Hlen]. split; [|done].
    rewrite read_digits_pretty by (apply Z.div_pos; lia).
    rewrite read_digits_colon, Hsec. f_equal.
    rewrite Z.rem_mod_nonneg by lia. pose proof (Z.div_mod x 60). lia. }
  intros Hs. destruct (Hread s Hs) as [H1 H2]. split; [done|]. split; [done|].
  intros s' Hs' Heq. destruct (Hread s' Hs') as [H1' _].
  rewrite Heq, H1 in H1'. by injection H1'.
Qed.

Lemma clock_reads_back_witness :
  formatTime 3725 = "62:05" ∧ read_clock (formatTime 3725) = Some 3725.
Proof.
  destruct (clock_reads_back 3725) as (H & _); [lia|].
  split; [reflexivity | exact H].
Defined.

(** *** The greeting *)

(** X17: The greeting is seeded once: the effect does nothing unless the history
    is empty and a student is present; then it puts the greeting there and
    touches nothing else; run again, it changes nothing any more; and it
    never removes a message. *)
Theorem greeting_is_seeded_once now now' s :
  (messages s ≠ [] ∨ student s = None → greetingEffect now s = s)
  ∧ (∀ stu, messages s = [] → student s = Some stu →
       messages (greetingEffect now s) = [greeting now stu (chapterId s)])
  ∧ greetingEffect now' (greetingEffect now s) = greetingEffect now s
  ∧ messages s `prefix_of` messages (greetingEffect now s)
  ∧ Forall (λ m, role m = assistant ∧ id m = "init")
      (drop (length (messages s)) (messages (greetingEffect now s)))
  ∧ input (greetingEffect now s) = input s
  ∧ isLoading (greetingEffect now s) = isLoading s
  ∧ error (greetingEffect now s) = error s
  ∧ calls (greetingEffect now s) = calls s.
Proof.
  unfold greetingEffect. destruct (student s) as [stu|] eqn:Hstu.
  - destruct (messages s) as [|m l] eqn:Hm.
    + simpl. rewrite Hstu.
      split; [by intros [? | ?]|]. split; [by intros stu' _ [= <-]|].
      split; [done|]. split; [by apply prefix_nil|].
      split; [by repeat constructor | done].
    + assert ((len (m :: l) =? 0) = false) as Hlen
        by (apply Z.eqb_neq; unfold len; simpl; lia).
      rewrite Hlen, Hstu, Hm, Hlen.
      repeat split; try done. rewrite drop_all. constructor.
  - rewrite Hstu. repeat split; try done. rewrite drop_all. constructor.
Qed.

Lemma skip_chars p s c :
  In c (list_ascii_of_string (skip p s)) → In c (list_ascii_of_string s).
Proof.
  induction s as [|a s IH]; simpl; [done|].
  destruct (p a); simpl; auto.
Qed.

Lemma skip_length p s : (String.length (skip p s) <= String.length s)%nat.
Proof. induction s as [|a s IH]; simpl; [done|]. destruct (p a); simpl; lia. Qed.

(** What [strip] leaves is the end of the string. *)
Lemma strip_suffix back s : ∃ p, s = p +:+ strip back s.
Proof.
  remember (String.length s) as n eqn:Hn. revert s Hn.
  induction n as [n IH] using lt_wf_ind. intros s ->.
  destruct s as [|a s1]; [by exists EmptyString|]. simpl.
  destruct (is_space a).
  { destruct (IH (String.length s1) ltac:(simpl; lia) s1 eq_refl) as [p Hp].
    exists (String a p). change (String a s1 = String a (p +:+ strip back s1)).
    by rewrite <- Hp. }
  destruct s1 as [|b s2]; [by exists EmptyString|].
  destruct (if back then is_space2 b a else is_space2 a b).
  { destruct (IH (String.length s2) ltac:(simpl; lia) s2 eq_refl) as [p Hp].
    exists (String a (String b p)).
    change (String a (String b s2) = String a (String b (p +:+ strip back s2))).
    by rewrite <- Hp. }
  destruct s2 as [|c s3]; [by exists EmptyString|].
  destruct (if back then is_space3 c b a else is_space3 a b c); [|by exists EmptyString].
  destruct (IH (String.length s3) ltac:(simpl; lia) s3 eq_refl) as [p Hp].
  exists (String a (String b (String c p))).
  change (String a (String b (String c s3))
          = String a (String b (String c (p +:+ strip back s3)))).
  by rewrite <- Hp.
Qed.

Lemma suffix_chars p r c :
  In c (list_ascii_of_string r) → In c (list_ascii_of_string (p +:+ r)).
Proof. induction p as [|a p IH]; simpl; auto. Qed.

Lemma suffix_length p r : (String.length r <= String.length (p +:+ r))%nat.
Proof.
  induction p as [|a p IH]; [done|].
  change (String a p +:+ r) with (String a (p +:+ r)). simpl. lia.
Qed.

Lemma trimStart_chars s c :
  In c (list_ascii_of_string (trimStart s)) → In c (list_ascii_of_string s).
Proof.
  unfold trimStart. destruct (strip_suffix false s) as [p Hp].
  rewrite Hp at 2. apply suffix_chars.
Qed.

Lemma trimStart_length s : (String.length (trimStart s) <= String.length s)%nat.
Proof.
  unfold trimStart. destruct (strip_suffix false s) as [p Hp].
  rewrite Hp at 2. apply suffix_length.
Qed.

Lemma match_ch_chars s rest c :
  match_ch s = Some rest →
  (In c (list_ascii_of_string rest) → In c (list_ascii_of_string s))
  ∧ (String.length rest <= String.length s)%nat.
Proof.
  unfold match_ch. destruct s as [|a [|b [|d s]]]; try done.
  destruct (_ && _); [|done]. intros [= <-]. split.
  - intros H. simpl. do 3 right. by eapply skip_chars, trimStart_chars.
  - simpl. pose proof (trimStart_length (skip is_digit s)).
    pose proof (skip_length is_digit s). lia.
Qed.

Lemma strip_chapter_number_cons b a s :
  strip_chapter_number b (String a s)
  = match (if b then None else match_ch (String a s)) with
    | Some rest => rest
    | None => String a (strip_chapter_number (is_word a) s)
    end.
Proof. reflexivity. Qed.

Lemma strip_chapter_number_chars b s c :
  In c (list_ascii_of_string (strip_chapter_number b s)) →
  In c (list_ascii_of_string s).
Proof.
  revert b. induction s as [|a s IH]; intros b; [done|].
  rewrite strip_chapter_number_cons.
  destruct (if b then None else match_ch (String a s)) as [rest|] eqn:Hm.
  - destruct b; [done|]. intros H.
    by apply (match_ch_chars (String a s) rest c Hm).
  - simpl. intros [-> | H]; [by left | right; by eapply IH].
Qed.

Lemma strip_chapter_number_length b s :
  (String.length (strip_chapter_number b s) <= String.length s)%nat.
Proof.
  revert b. induction s as [|a s IH]; intros b; [done|].
  rewrite strip_chapter_number_cons.
  destruct (if b then None else match_ch (String a s)) as [rest|] eqn:Hm.
  - destruct b; [done|].
    destruct (match_ch_chars (String a s) rest "_"%char Hm) as [_ H]. exact H.
  - simpl. specialize (IH (is_word a)). lia.
Qed.

Lemma underscores_to_spaces_spec s :
  ¬ In "_"%char (list_ascii_of_string (underscores_to_spaces s))
  ∧ String.length (underscores_to_spaces s) = String.length s.
Proof.
  induction s as [|a s [IH1 IH2]]; simpl; [split; [tauto | done]|].
  split; [|by rewrite IH2]. intros [H | H]; [|done].
  destruct (Ascii.eqb_spec a "_"); [discriminate | congruence].
Qed.

(** X18: The label made from a chapter id holds no underscore and is never
    longer than the id. *)
Theorem chapter_label_has_no_underscore (c : string) :
  ¬ In "_"%char (list_ascii_of_string (chapterDisplay (Some c)))
  ∧ (String.length (chapterDisplay (Some c)) <= String.length c)%nat.
Proof.
  unfold chapterDisplay. destruct (underscores_to_spaces_spec c) as [Hno Hlen]. split.
  - intros H. apply Hno. by eapply strip_chapter_number_chars.
  - rewrite <- Hlen. apply strip_chapter_number_length.
Qed.

End LearningPageMore.

(** ** Properties of the stores *)

Module StoreFacts.

Lemma run_quiz_snoc st acts a :
  QuizStore.run st (acts ++ [a]) = QuizStore.apply (QuizStore.run st acts) a.
Proof. unfold QuizStore.run. by rewrite foldl_app. Qed.

(** X19: Whatever is done with the quiz store from its initial state, the index
    of the current question stays 0 (no action moves it) and the score is 0
    for as long as the quiz is not completed. *)
Theorem quiz_store_index_and_score acts :
  QuizStore.currentQuestionIndex (QuizStore.run QuizStore.initial acts) = 0
  ∧ (QuizStore.isCompleted (QuizStore.run QuizStore.initial acts) = false →
       QuizStore.score (QuizStore.run QuizStore.initial acts) = 0).
Proof.
  induction acts as [|a acts [IH1 IH2]] using rev_ind; [done|].
  rewrite run_quiz_snoc. destruct a; simpl; auto. split; [done | discriminate].
Qed.

Lemma last_answer_snoc k acts a :
  QuizStore.last_answer k (acts ++ [a])
  = match a with
    | QuizStore.SubmitAnswer k' v =>
        if String.eqb k' k then Some v else QuizStore.last_answer k acts
    | _ => QuizStore.last_answer k acts
    end.
Proof. unfold QuizStore.last_answer. by rewrite foldl_app. Qed.

(** X20: Starting a quiz discards the answers of the store; from then on, and
    until the next start or reset, the store keeps the quiz id and holds for
    each question the last answer submitted for it, completion or not. *)
Theorem quiz_store_answers_since_start st q acts k :
  Forall QuizStore.keeps_quiz acts →
  QuizStore.answers (QuizStore.run (QuizStore.startQuiz q st) acts) !! k
    = QuizStore.last_answer k acts
  ∧ QuizStore.currentQuizId (QuizStore.run (QuizStore.startQuiz q st) acts) = Some q.
Proof.
  induction acts as [|a acts IH] using rev_ind; intros Hall; [done|].
  apply Forall_app in Hall as [Hacts Ha]. apply Forall_inv in Ha.
  destruct (IH Hacts) as [IH1 IH2].
  rewrite run_quiz_snoc, last_answer_snoc.
  destruct a as [q'|k' v|sc|]; simpl in Ha; [done | | by split | done].
  split; [|exact IH2]. simpl. destruct (String.eqb_spec k' k) as [->|Hne].
  - apply lookup_insert_eq.
  - by rewrite lookup_insert_ne.
Qed.

Lemma quiz_store_answers_witness :
  QuizStore.answers
    (QuizStore.run (QuizStore.startQuiz "quiz-1" QuizStore.initial)
       [QuizStore.SubmitAnswer "3" "B"; QuizStore.CompleteQuiz 4;
        QuizStore.SubmitAnswer "3" "D"]) !! "3"
  = Some "D".
Proof.
  destruct (quiz_store_answers_since_start QuizStore.initial "quiz-1"
              [QuizStore.SubmitAnswer "3" "B"; QuizStore.CompleteQuiz 4;
               QuizStore.SubmitAnswer "3" "D"] "3") as [H _].
  - repeat constructor.
  - rewrite H. reflexivity.
Defined.

Lemma run_session_snoc st acts a :
  SessionStore.run st (acts ++ [a]) = SessionStore.apply (SessionStore.run st acts) a.
Proof. unfold SessionStore.run. by rewrite foldl_app. Qed.

Lemma session_total_snoc f acts a :
  SessionStore.total f (acts ++ [a]) = SessionStore.total f acts + f a.
Proof.
  unfold SessionStore.total. induction acts as [|b acts IH]; simpl; [lia|].
  rewrite IH. lia.
Qed.

Lemma session_total_perm f acts acts' :
  acts ≡ₚ acts' → SessionStore.total f acts = SessionStore.total f acts'.
Proof.
  unfold SessionStore.total.
  induction 1; simpl; [done | congruence | lia | congruence].
Qed.

Lemma session_total_nonneg f acts :
  Forall (λ a, 0 <= f a) acts → 0 <= SessionStore.total f acts.
Proof. unfold SessionStore.total. induction 1; simpl; lia. Qed.

Lemma session_state_eq (a b : SessionStore.State) :
  SessionStore.studyTime a = SessionStore.studyTime b →
  SessionStore.xp a = SessionStore.xp b →
  SessionStore.streak a = SessionStore.streak b → a = b.
Proof. destruct a, b; simpl; congruence. Qed.

(** Whole numbers below 2^53 in size are added without rounding. *)
Lemma add_whole a b :
  Z.abs (a + b) < 2 ^ 53 →
  Js.Number_add (SessionStore.whole a) (SessionStore.whole b) = SessionStore.whole (a + b).
Proof.
  intros H. unfold SessionStore.whole. simpl.
  apply NumberFacts.to_number_int; [|done]. by rewrite inject_Z_plus.
Qed.

Lemma session_store_fields st x0 m0 acts :
  SessionStore.xp st = SessionStore.whole x0 →
  SessionStore.studyTime st = SessionStore.whole m0 →
  0 <= x0 → 0 <= m0 →
  Forall (λ a, 0 <= SessionStore.amount a) acts →
  x0 + SessionStore.total SessionStore.xp_of acts < 2 ^ 53 →
  m0 + SessionStore.total SessionStore.minutes_of acts < 2 ^ 53 →
  SessionStore.xp (SessionStore.run st (SessionStore.whole_action <$> acts))
    = SessionStore.whole (x0 + SessionStore.total SessionStore.xp_of acts)
  ∧ SessionStore.studyTime (SessionStore.run st (SessionStore.whole_action <$> acts))
    = SessionStore.whole (m0 + SessionStore.total SessionStore.minutes_of acts)
  ∧ SessionStore.streak (SessionStore.run st (SessionStore.whole_action <$> acts))
    = SessionStore.streak st.
Proof.
  intros Hx Hm Hx0 Hm0.
  induction acts as [|a acts IH] using rev_ind; intros Hall Hxs Hms.
  - simpl. rewrite Hx, Hm, !Z.add_0_r. done.
  - apply Forall_app in Hall as [Hacts Ha]. apply Forall_inv in Ha.
    rewrite !session_total_snoc in *.
    assert (0 <= SessionStore.total SessionStore.xp_of acts) as Hpx.
    { apply session_total_nonneg. eapply Forall_impl; [exact Hacts|].
      intros [n|n]; simpl; lia. }
    assert (0 <= SessionStore.total SessionStore.minutes_of acts) as Hpm.
    { apply session_total_nonneg. eapply Forall_impl; [exact Hacts|].
      intros [n|n]; simpl; lia. }
    assert (0 <= SessionStore.xp_of a ∧ 0 <= SessionStore.minutes_of a) as [Hax Ham]
      by (destruct a; simpl in *; lia).
    destruct IH as (IH1 & IH2 & IH3); [done | lia | lia |].
    rewrite fmap_app.
    change (SessionStore.whole_action <$> [a]) with [SessionStore.whole_action a].
    rewrite run_session_snoc.
    destruct a as [n|n]; simpl in *; rewrite ?IH1, ?IH2, ?IH3, ?Z.add_0_r.
    + split; [|done]. rewrite add_whole by lia. f_equal. lia.
    + split; [done|]. split; [|done]. rewrite add_whole by lia. f_equal. lia.
Qed.

(** X21: The session store adds up as long as it counts in whole numbers
    that a double holds: from whole values that are not negative, after
    actions with whole amounts that are not negative, and with both sums
    below 2^53, the XP is the XP before plus the amounts added, the study
    time is the time before plus the minutes added, the streak is what it
    was, and the order of the actions makes no difference. *)
Theorem session_store_adds_up st x0 m0 acts :
  SessionStore.xp st = SessionStore.whole x0 →
  SessionStore.studyTime st = SessionStore.whole m0 →
  0 <= x0 → 0 <= m0 →
  Forall (λ a, 0 <= SessionStore.amount a) acts →
  x0 + SessionStore.total SessionStore.xp_of acts < 2 ^ 53 →
  m0 + SessionStore.total SessionStore.minutes_of acts < 2 ^ 53 →
  SessionStore.xp (SessionStore.run st (SessionStore.whole_action <$> acts))
    = SessionStore.whole (x0 + SessionStore.total SessionStore.xp_of acts)
  ∧ SessionStore.studyTime (SessionStore.run st (SessionStore.whole_action <$> acts))
    = SessionStore.whole (m0 + SessionStore.total SessionStore.minutes_of acts)
  ∧ SessionStore.streak (SessionStore.run st (SessionStore.whole_action <$> acts))
    = SessionStore.streak st
  ∧ ∀ acts', acts ≡ₚ acts' →
      SessionStore.run st (SessionStore.whole_action <$> acts')
      = SessionStore.run st (SessionStore.whole_action <$> acts).
Proof.
  intros Hx Hm Hx0 Hm0 Hall Hxs Hms.
  destruct (session_store_fields st x0 m0 acts) as (H1 & H2 & H3); try done.
  repeat split; try done. intros acts' Hp.
  destruct (session_store_fields st x0 m0 acts') as (H1' & H2' & H3'); try done.
  - by rewrite <- Hp.
  - by rewrite <- (session_total_perm _ _ _ Hp).
  - by rewrite <- (session_total_perm _ _ _ Hp).
  - apply session_state_eq; rewrite ?H1, ?H2, ?H3, ?H1', ?H2', ?H3'; try done;
      f_equal; f_equal; symmetry; by apply session_total_perm.
Qed.

Lemma session_store_adds_up_witness :
  SessionStore.xp (SessionStore.run SessionStore.initial
                     [SessionStore.AddXP (SessionStore.whole 50);
                      SessionStore.IncrementStudyTime (SessionStore.whole 25);
                      SessionStore.AddXP (SessionStore.whole 10)])
  = SessionStore.whole 60.
Proof.
  destruct (session_store_adds_up SessionStore.initial 0 0 [inl 50; inr 25; inl 10])
    as (H & _);
    [reflexivity | reflexivity | lia | lia | repeat constructor; simpl; lia
    | vm_compute; reflexivity | vm_compute; reflexivity |].
  exact H.
Defined.

(** Outside these bounds the store rounds as doubles do: one XP added to
    2^53 is lost, and three fractions add up differently in two orders. *)
Lemma session_store_rounds :
  SessionStore.xp (SessionStore.addXP (SessionStore.whole 1)
                     {| SessionStore.studyTime := SessionStore.whole 0;
                        SessionStore.xp := SessionStore.whole (2 ^ 53);
                        SessionStore.streak := SessionStore.whole 0 |})
  = SessionStore.whole (2 ^ 53)
  ∧ SessionStore.xp (SessionStore.run SessionStore.initial
                       (SessionStore.AddXP <$> [SessionStore.tenths 1; SessionStore.tenths 2;
                                                SessionStore.tenths 3]))
    ≠ SessionStore.xp (SessionStore.run SessionStore.initial
                         (SessionStore.AddXP <$> [SessionStore.tenths 3; SessionStore.tenths 2;
                                                  SessionStore.tenths 1])).
Proof. split; [vm_compute; reflexivity | vm_compute; discriminate]. Qed.

Lemma run_auth_snoc st acts a :
  AuthStore.run st (acts ++ [a]) = AuthStore.apply (AuthStore.run st acts) a.
Proof. unfold AuthStore.run. by rewrite foldl_app. Qed.

(** X22: After any logins and logouts the store says authenticated exactly when
    it holds a student, and the sidebar and the header are rendered only
    with a student and away from the two public pages. *)
Theorem navigation_needs_a_student acts pathname :
  (AuthStore.isAuthenticated (AuthStore.run AuthStore.initial acts) = true
   ↔ is_Some (AuthStore.student (AuthStore.run AuthStore.initial acts)))
  ∧ (AuthStore.shows_navigation (AuthStore.run AuthStore.initial acts) pathname = true →
       is_Some (AuthStore.student (AuthStore.run AuthStore.initial acts))
       ∧ pathname ≠ "/" ∧ pathname ≠ "/login").
Proof.
  assert (AuthStore.isAuthenticated (AuthStore.run AuthStore.initial acts) = true
          ↔ is_Some (AuthStore.student (AuthStore.run AuthStore.initial acts))) as Hiff.
  { induction acts as [|a acts IH] using rev_ind.
    - simpl. split; [done | by intros [? ?]].
    - rewrite run_auth_snoc. destruct a; simpl; split; eauto; try done.
      all: by intros [? ?]. }
  split; [done|]. unfold AuthStore.shows_navigation, AuthStore.isPublicPage.
  intros H. apply negb_true_iff, orb_false_iff in H as [Ha Hp].
  apply negb_false_iff in Ha. apply bool_decide_eq_false in Hp.
  split; [by apply Hiff|].
  split; intros ->; apply Hp.
  - apply elem_of_cons. by left.
  - apply elem_of_cons. right. apply elem_of_cons. by left.
Qed.

(** X23: The XP bar of the sidebar is never full: its width is the XP modulo
    100, between 0 and 99 for an XP that is not negative, and strictly
    inside -100 and 100 whatever the XP. *)
Theorem xp_bar_is_never_full st :
  -100 < AuthStore.xpPercent st < 100
  ∧ ∀ stu n, AuthStore.student st = Some stu → AuthStore.xp stu = Some n → 0 <= n →
      AuthStore.xpPercent st = n mod 100 ∧ 0 <= AuthStore.xpPercent st <= 99
      ∧ AuthStore.xpPercent st
        = AuthStore.xpPercent
            {| AuthStore.student :=
                 Some {| AuthStore.id := AuthStore.id stu; AuthStore.name := AuthStore.name stu;
                         AuthStore.xp := Some (n + 100);
                         AuthStore.level := AuthStore.level stu |};
               AuthStore.isAuthenticated := AuthStore.isAuthenticated st |}.
Proof.
  unfold AuthStore.xpPercent. split.
  - set (x := match AuthStore.student st with
              | Some stu => match AuthStore.xp stu with Some n => n | None => 0 end
              | None => 0
              end).
        destruct (Z.le_gt_cases 0 x).
    + pose proof (Z.rem_bound_pos x 100). lia.
    + pose proof (Z.rem_bound_neg_neg x 100) as Hn. pose proof (Z.rem_opp_l x 100).
      assert (-100 < Z.rem x 100 <= 0).
      { rewrite <- (Z.opp_involutive x), Z.rem_opp_l by lia.
        pose proof (Z.rem_bound_pos (- x) 100). lia. }
      lia.
  - intros stu n -> Hn H0. simpl. rewrite Hn.
    rewrite !Z.rem_mod_nonneg by lia.
    pose proof (Z.mod_pos_bound n 100).
    replace ((n + 100) mod 100) with (n mod 100)
      by (rewrite <- (Z.mul_1_l 100) at 2; by rewrite Z.mod_add by lia).
    lia.
Qed.

End StoreFacts.

(** ** Properties of the small components *)

Module WidgetFacts.

Import Js Widgets NumberFacts.

Lemma Qle_bool_false (x y : Q) : Qle_bool x y = false ↔ (y < x)%Q.
Proof.
  split.
  - intros H. apply Qnot_le_lt. intros Hle. apply Qle_bool_iff in Hle. congruence.
  - intros H. destruct (Qle_bool x y) eqn:E; [|done].
    apply Qle_bool_iff in E. lra.
Qed.

Ltac compare_Q :=
  repeat match goal with
         | H : Qle_bool _ _ = true |- _ => apply Qle_bool_iff in H
         | H : Qle_bool _ _ = false |- _ => apply Qle_bool_false in H
         | |- Qle_bool _ _ = true => apply Qle_bool_iff
         | |- Qle_bool _ _ = false => apply Qle_bool_false
         end.

(** What the progress bar makes of a finite progress. *)
Lemma clamped_finite (q : Q) :
  ∃ c, clampedProgress (Finite q) = Finite c
       ∧ (0 <= c)%Q ∧ (c <= 100)%Q
       ∧ ((q <= 0)%Q → c == 0)%Q
       ∧ ((0 <= q)%Q → (q <= 100)%Q → c == q)%Q
       ∧ ((100 <= q)%Q → c == 100)%Q.
Proof.
  unfold clampedProgress.
  change (Number_of_Z 100) with (Finite 100). change (Number_of_Z 0) with (Finite 0).
  simpl. destruct (Qle_bool 0 q) eqn:E0; simpl.
  - destruct (Qle_bool 100 q) eqn:E1; compare_Q;
      eexists; (split; [reflexivity|]); repeat split; intros; lra.
  - compare_Q. exists 0%Q. split; [reflexivity|]. repeat split; intros; lra.
Qed.

(** X24: The progress bar is clamped, except for NaN.  For every progress
    that is a number, the infinities included, the progress drawn is
    between 0 and 100, it is the given one when that is in range, and the
    label printed is a whole number between 0 and 100; clamping twice is
    clamping once, and the progress drawn grows with the given one.  For NaN
    the progress drawn is NaN and so is the label. *)
Theorem progress_bar_is_clamped (p : number) :
  match p with
  | NaN => clampedProgress p = NaN ∧ progressLabel p = NaN
  | _ =>
      ∃ c n, clampedProgress p = Finite c ∧ (0 <= c)%Q ∧ (c <= 100)%Q
             ∧ progressLabel p = Finite (inject_Z n) ∧ 0 <= n <= 100
  end
  ∧ (∀ q, p = Finite q → (0 <= q)%Q → (q <= 100)%Q →
       same_number (clampedProgress p) p = true)
  ∧ clampedProgress (clampedProgress p) = clampedProgress p
  ∧ (∀ p', Number_le p p' = true →
       Number_le (clampedProgress p) (clampedProgress p') = true).
Proof.
  assert (∀ q, ∃ c n, clampedProgress (Finite q) = Finite c ∧ (0 <= c)%Q ∧ (c <= 100)%Q
                      ∧ progressLabel (Finite q) = Finite (inject_Z n) ∧ 0 <= n <= 100)
    as Hfin.
  { intros q. destruct (clamped_finite q) as (c & Hc & H0 & H100 & _).
    exists c, (round_half_up c). unfold progressLabel. rewrite Hc.
    repeat split; try done; apply (round_half_up_between c 0 100); done. }
  assert (clampedProgress (Infinite false) = Finite 100
          ∧ clampedProgress (Infinite true) = Finite 0) as [Hpos Hneg]
    by (split; reflexivity).
  split; [|split; [|split]].
  - destruct p as [q|[]|]; [apply Hfin | | |split; reflexivity].
    + exists 0%Q, 0. unfold progressLabel. rewrite Hneg.
      split; [reflexivity|]. split; [lra|]. split; [lra|]. split; [reflexivity | lia].
    + exists 100%Q, 100. unfold progressLabel. rewrite Hpos.
      split; [reflexivity|]. split; [lra|]. split; [lra|]. split; [reflexivity | lia].
  - intros q -> H0 H100. destruct (clamped_finite q) as (c & -> & _ & _ & _ & Hc & _).
    simpl. apply Qeq_bool_iff. by apply Hc.
  - destruct p as [q|[]|]; [|by rewrite Hneg | by rewrite Hpos | reflexivity].
    destruct (clamped_finite q) as (c & Hc & H0 & H100 & _). rewrite Hc.
    revert Hc. unfold clampedProgress.
    change (Number_of_Z 100) with (Finite 100). change (Number_of_Z 0) with (Finite 0).
    simpl. destruct (Qle_bool 0 q) eqn:E0; simpl.
    + destruct (Qle_bool 100 q) eqn:E1; intros [= <-]; [reflexivity|].
      simpl. by rewrite E0, E1.
    + intros [= <-]. reflexivity.
  - intros p' Hle.
    destruct p as [q|[]|], p' as [q'|[]|]; try discriminate Hle;
      rewrite ?Hpos, ?Hneg; try reflexivity.
    + destruct (clamped_finite q) as (c & -> & H0 & H100 & Hlo & Hmid & Hhi).
      destruct (clamped_finite q') as (c' & -> & H0' & H100' & Hlo' & Hmid' & Hhi').
      simpl in *. compare_Q.
      destruct (Qlt_le_dec q 0), (Qlt_le_dec 100 q),
        (Qlt_le_dec q' 0), (Qlt_le_dec 100 q');
        rewrite ?Hlo, ?Hmid, ?Hhi, ?Hlo', ?Hmid', ?Hhi' by lra; lra.
    + destruct (clamped_finite q) as (c & -> & H0 & H100 & _).
      simpl. by compare_Q.
    + destruct (clamped_finite q') as (c' & -> & H0' & H100' & _).
      simpl. by compare_Q.
Qed.

(** The progress NaN, as 0/0 gives it, is drawn as NaN percent. *)
Lemma progress_bar_of_NaN :
  clampedProgress (Number_div (Number_of_Z 0) (Number_of_Z 0)) = NaN.
Proof. reflexivity. Qed.

(** X25: The colour of an average quiz score follows the score: green from 70,
    amber from 40, red above 0, grey otherwise; a higher score never gets a
    lower colour; and the dash is printed in place of the score exactly
    when the colour is grey. *)
Theorem score_colour_bands (a : Q) :
  (scoreColour a = emerald ↔ (70 <= a)%Q)
  ∧ (scoreColour a = amber ↔ (40 <= a)%Q ∧ (a < 70)%Q)
  ∧ (scoreColour a = red ↔ (0 < a)%Q ∧ (a < 40)%Q)
  ∧ (scoreColour a = slate ↔ (a <= 0)%Q)
  ∧ (scoreText a = None ↔ scoreColour a = slate)
  ∧ ∀ b, (a <= b)%Q → colour_rank (scoreColour a) <= colour_rank (scoreColour b).
Proof.
  assert (∀ x, (scoreColour x = emerald ∧ 70 <= x)%Q
               ∨ (scoreColour x = amber ∧ 40 <= x ∧ x < 70)%Q
               ∨ (scoreColour x = red ∧ 0 < x ∧ x < 40)%Q
               ∨ (scoreColour x = slate ∧ x <= 0)%Q) as Hcases.
  { intros x. unfold scoreColour.
    destruct (Qle_bool 70 x) eqn:E1; [left; split; [done | by apply Qle_bool_iff]|].
    apply Qle_bool_false in E1.
    destruct (Qle_bool 40 x) eqn:E2.
    { apply Qle_bool_iff in E2. right; left. by repeat split. }
    apply Qle_bool_false in E2.
    destruct (Qle_bool x 0) eqn:E3; simpl.
    - do 3 right. split; [done | by apply Qle_bool_iff].
    - apply Qle_bool_false in E3. right; right; left. by repeat split. }
  assert (scoreText a = None ↔ (a <= 0)%Q) as Htext.
  { unfold scoreText. destruct (Qle_bool a 0) eqn:E; simpl.
    - split; [intros _; by apply Qle_bool_iff | done].
    - apply Qle_bool_false in E. split; [done | lra]. }
  destruct (Hcases a) as [[Ha H1] | [[Ha [H1 H2]] | [[Ha [H1 H2]] | [Ha H1]]]];
    rewrite Ha; rewrite ?Htext.
  all: repeat split; try done; try lra; try (intros; lra).
  all: try (intros [? ?]; lra).
  all: intros b Hb;
    destruct (Hcases b) as [[Hb' ?] | [[Hb' [? ?]] | [[Hb' [? ?]] | [Hb' ?]]]];
    rewrite Hb'; simpl; try lia; lra.
Qed.

End WidgetFacts.

(** ** Properties of the video library *)

Module VideoLibraryFacts.

Import Js VideoLibraryPage.

(** *** Marking a video as watched *)

Lemma mark_id vid v : id (mark vid v) = id v.
Proof. unfold mark. by destruct (String.eqb (id v) vid). Qed.

Lemma mark_watched vid v :
  watched (mark vid v) = watched v || String.eqb (id v) vid.
Proof.
  unfold mark. destruct (String.eqb (id v) vid); simpl;
    [by rewrite orb_true_r | by rewrite orb_false_r].
Qed.

Lemma mark_other vid v : id v ≠ vid → mark vid v = v.
Proof. unfold mark. by destruct (String.eqb_spec (id v) vid). Qed.

Lemma mark_mark a b v : mark a (mark b v) = mark b (mark a v).
Proof.
  unfold mark. destruct (String.eqb (id v) b) eqn:Eb;
    destruct (String.eqb (id v) a) eqn:Ea; simpl; rewrite ?Ea, ?Eb; done.
Qed.

Lemma mark_idemp a v : mark a (mark a v) = mark a v.
Proof. unfold mark. destruct (String.eqb (id v) a) eqn:Ea; simpl; by rewrite ?Ea. Qed.

Lemma filter_watched_mark vid l :
  (length (List.filter watched l) <= length (List.filter watched (mark vid <$> l)))%nat.
Proof.
  induction l as [|v l IH]; [done|].
  rewrite fmap_cons. cbn [List.filter]. rewrite mark_watched.
  destruct (watched v); cbn [orb length]; [lia|].
  destruct (String.eqb (id v) vid); cbn [length]; lia.
Qed.

Lemma filter_length_le {A} (f : A → bool) l :
  (length (List.filter f l) <= length l)%nat.
Proof. induction l as [|x l IH]; simpl; [done|]. destruct (f x); simpl; lia. Qed.

(** X26: A watch that succeeded marks the videos with that id and no other: the
    list keeps its length, its order and every field but the flag, and a
    video is watched afterwards exactly if it was before or has that id.
    Marking twice is marking once, two marks commute, and an id that is not
    in the list changes nothing. *)
Theorem watching_marks_that_video_only (vid : string) (l : list Video) :
  length (mark vid <$> l) = length l
  ∧ id <$> (mark vid <$> l) = id <$> l
  ∧ (∀ i v, l !! i = Some v →
       ∃ v', (mark vid <$> l) !! i = Some v'
             ∧ watched v' = watched v || String.eqb (id v) vid
             ∧ title v' = title v ∧ subject v' = subject v
             ∧ description v' = description v ∧ duration v' = duration v
             ∧ thumbnail v' = thumbnail v ∧ chapter_id v' = chapter_id v)
  ∧ mark vid <$> (mark vid <$> l) = mark vid <$> l
  ∧ (∀ other, mark other <$> (mark vid <$> l) = mark vid <$> (mark other <$> l))
  ∧ (vid ∉ id <$> l → mark vid <$> l = l).
Proof.
  split; [apply length_fmap|]. split.
  { rewrite <- list_fmap_compose. apply list_fmap_ext. intros i v _. apply mark_id. }
  split.
  { intros i v Hv. exists (mark vid v). rewrite list_lookup_fmap, Hv.
    split; [done|]. split; [apply mark_watched|].
    unfold mark. by destruct (String.eqb (id v) vid). }
  split.
  { rewrite <- list_fmap_compose. apply list_fmap_ext. intros i v _. apply mark_idemp. }
  split.
  { intros other. rewrite <- !list_fmap_compose. apply list_fmap_ext.
    intros i v _. apply mark_mark. }
  intros Hno. rewrite <- (list_fmap_id l) at 2. apply list_fmap_ext.
  intros i v Hv. apply mark_other. intros Heq. apply Hno.
  apply list_elem_of_fmap. exists v. split; [done|]. by eapply list_elem_of_lookup_2.
Qed.

(** *** The page *)

Section Page.

Variable toLowerCase : string → string.

Local Abbreviation handle := (VideoLibraryPage.handle toLowerCase).
Local Abbreviation run := (VideoLibraryPage.run toLowerCase).
Local Abbreviation reachable := (VideoLibraryPage.reachable toLowerCase).
Local Abbreviation filtered := (VideoLibraryPage.filtered toLowerCase).
Local Abbreviation matches := (VideoLibraryPage.matches toLowerCase).

(** X27: Once the list is there, nothing removes a video, reorders the list or
    takes a watched flag back: a turn other than the arrival of the list
    leaves the ids as they are, the count of watched videos does not go
    down and never exceeds the number of videos, and the XP shown is fifty
    times that count. *)
Theorem watched_only_grows s e s' :
  handle s e = Some s' → (∀ o, e ≠ VideosSettled o) →
  id <$> videos s' = id <$> videos s
  ∧ (videos s' = videos s
     ∨ ∃ k vid, e = WatchSettled k (Resolved ()) ∧ posts s !! k = Some vid
                ∧ videos s' = mark vid <$> videos s)
  ∧ watchedCount s <= watchedCount s' <= len (videos s')
  ∧ totalXpFromVideos s' = 50 * watchedCount s'.
Proof.
  intros He Hne.
  assert (videos s' = videos s
          ∨ ∃ k vid, e = WatchSettled k (Resolved ()) ∧ posts s !! k = Some vid
                     ∧ videos s' = mark vid <$> videos s) as Hv.
  { destruct e; simpl in He; repeat case_match; simplify_eq; simpl; eauto.
    - by destruct (Hne (Resolved data)).
    - right. destruct data. eauto. }
  assert (watchedCount s' <= len (videos s')) as Hle.
  { unfold watchedCount, len. pose proof (filter_length_le watched (videos s')). lia. }
  split; [|split; [done|split; [|unfold totalXpFromVideos; lia]]].
  - destruct Hv as [Hv | (k & vid & _ & _ & Hv)]; rewrite Hv; [done|].
    rewrite <- list_fmap_compose. apply list_fmap_ext. intros i v _. apply mark_id.
  - split; [|done]. unfold watchedCount, len.
    destruct Hv as [Hv | (k & vid & _ & _ & Hv)]; rewrite Hv; [done|].
    pose proof (filter_watched_mark vid (videos s)). lia.
Qed.

(** *** Filters *)

Lemma List_filter_sublist {A} (f : A → bool) (l : list A) :
  List.filter f l `sublist_of` l.
Proof.
  induction l as [|x l IH]; simpl; [constructor|].
  destruct (f x); by constructor.
Qed.

Lemma List_filter_elem {A} (f : A → bool) (l : list A) x :
  x ∈ List.filter f l ↔ x ∈ l ∧ f x = true.
Proof. rewrite !list_elem_of_In. apply filter_In. Qed.

Lemma List_filter_all {A} (f : A → bool) (l : list A) :
  (∀ x, f x = true) → List.filter f l = l.
Proof. intros Hf. induction l as [|x l IH]; simpl; [done|]. by rewrite Hf, IH. Qed.

Lemma set_order_elem x l : x ∈ set_order l ↔ x ∈ l.
Proof.
  induction l as [|y l IH]; simpl; [done|].
  rewrite !elem_of_cons, list_elem_of_filter, IH.
  destruct (decide (x = y)); tauto.
Qed.

Lemma set_order_NoDup l : NoDup (set_order l).
Proof.
  induction l as [|y l IH]; simpl; constructor.
  - rewrite list_elem_of_filter. by intros [? _].
  - by apply NoDup_filter.
Qed.

Lemma includes_empty hay : includes "" hay = true.
Proof. unfold includes. by destruct hay. Qed.

(** X28: What is listed is a selection of the videos in their order: every video
    listed is of the chosen subject (or the choice is "all") and matches the
    search; with "all" and an empty search everything is listed; two
    searches that are not empty and differ only in what [toLowerCase]
    makes equal list the same videos; the subject buttons after "all" are
    the subjects of the videos, each once; and a subject button, with an
    empty search, always lists at least one video. *)
Theorem filtered_is_a_selection s :
  filtered s `sublist_of` videos s
  ∧ (∀ v, v ∈ filtered s ↔
       v ∈ videos s ∧ in_subject (selectedSubject s) v = true
       ∧ matches (searchQuery s) v = true)
  ∧ (∀ v, in_subject (selectedSubject s) v = true ↔
       selectedSubject s = "all" ∨ subject v = selectedSubject s)
  ∧ (selectedSubject s = "all" → searchQuery s = "" → filtered s = videos s)
  ∧ (∀ q q' v, q ≠ "" → q' ≠ "" → toLowerCase q = toLowerCase q' →
       matches q v = matches q' v)
  ∧ NoDup (set_order (subject <$> videos s))
  ∧ (∀ subj, subj ∈ subjects s ↔ subj = "all" ∨ ∃ v, v ∈ videos s ∧ subject v = subj)
  ∧ (∀ subj, subj ∈ subjects s → subj ≠ "all" →
       selectedSubject s = subj → searchQuery s = "" → filtered s ≠ []).
Proof.
  assert (∀ v, v ∈ filtered s ↔
            v ∈ videos s ∧ in_subject (selectedSubject s) v = true
            ∧ matches (searchQuery s) v = true) as Hmem.
  { intros v. unfold filtered. rewrite !List_filter_elem. tauto. }
  assert (∀ subj, subj ∈ subjects s ↔
            subj = "all" ∨ ∃ v, v ∈ videos s ∧ subject v = subj) as Hsub.
  { intros subj. unfold subjects.
    rewrite elem_of_cons, set_order_elem, list_elem_of_fmap.
    split; (intros [? | (v & ? & ?)]; [by left | right; by exists v]). }
  split.
  { unfold filtered. etrans; apply List_filter_sublist. }
  split; [done|]. split.
  { intros v. unfold in_subject. rewrite orb_true_iff.
    split; (intros [H | H]; [left | right]);
      first [by apply String.eqb_eq in H | by apply String.eqb_eq]. }
  split.
  { intros Hsel Hq. unfold filtered. rewrite Hsel, Hq.
    rewrite !List_filter_all; done. }
  split.
  { intros q q' v Hq Hq' Heq. unfold VideoLibraryPage.matches, truthy.
    apply String.eqb_neq in Hq, Hq'. by rewrite Hq, Hq', Heq. }
  split; [apply set_order_NoDup|]. split; [done|].
  intros subj Hin Hne Hsel Hq Hnil.
  apply Hsub in Hin as [-> | (v & Hv & Hs)]; [done|].
  assert (v ∈ filtered s) as Hvf.
  { apply Hmem. split; [done|]. rewrite Hsel, Hq. split; [|done].
    unfold in_subject. rewrite Hs, String.eqb_refl. apply orb_true_r. }
  rewrite Hnil in Hvf. by apply elem_of_nil in Hvf.
Qed.

(** *** Requests *)

Lemma elem_of_delete {A} (l : list A) k x : x ∈ delete k l → x ∈ l.
Proof. apply sublist_subseteq, sublist_delete. Qed.

Lemma ids_mark vid (l : list Video) : id <$> (mark vid <$> l) = id <$> l.
Proof.
  rewrite <- list_fmap_compose. apply list_fmap_ext. intros i v _. apply mark_id.
Qed.

Lemma library_invariant_handle s e s' : invariant s → handle s e = Some s' → invariant s'.
Proof.
  intros (Hfl & Hload & Hids) He. destruct e; simpl in He.
  - destruct (fetching s) eqn:Hf; [|done]. injection He as <-.
    destruct Hload as (_ & Ht & Hp & _); [congruence|].
    unfold invariant; simpl. rewrite Ht, Hp. repeat split; try done.
    intros vid Hv. by apply elem_of_nil in Hv.
  - destruct (loading s) eqn:Hl; [done|]. injection He as <-.
    unfold invariant; simpl. rewrite ?Hl. by repeat split.
  - destruct (loading s) eqn:Hl; [done|].
    destruct (subjects s !! i); [|done]. injection He as <-.
    unfold invariant; simpl. rewrite ?Hl. by repeat split.
  - destruct (loading s) eqn:Hl; [done|].
    destruct (filtered s !! i) as [video|] eqn:Hv; [|done].
    destruct (watched video || _); [done|]. injection He as <-.
    unfold invariant; simpl. rewrite ?Hl. repeat split; try done.
    intros vid Hin. rewrite <- app_assoc in Hin.
    apply elem_of_app in Hin as [Hin | Hin]; [apply Hids, elem_of_app; by left|].
    apply elem_of_app in Hin as [Hin | Hin].
    + apply list_elem_of_singleton in Hin as ->.
      apply list_elem_of_fmap. exists video. split; [done|].
      apply list_elem_of_lookup_2 in Hv.
      unfold filtered in Hv. by apply List_filter_elem in Hv as [[? _]%List_filter_elem _].
    + apply Hids, elem_of_app. by right.
  - destruct (timers s !! k) as [videoId|] eqn:Hk; [|done]. injection He as <-.
    unfold invariant; simpl. split; [done|]. split.
    + intros Hl. destruct (Hload Hl) as (_ & Ht & _). by rewrite Ht in Hk.
    + intros vid Hin. apply Hids.
      apply elem_of_app in Hin as [Hin | Hin];
        [apply elem_of_app; left; by eapply elem_of_delete|].
      apply elem_of_app in Hin as [Hin | Hin]; [apply elem_of_app; by right|].
      apply list_elem_of_singleton in Hin as ->.
      apply elem_of_app; left. by eapply list_elem_of_lookup_2.
  - destruct (posts s !! k) as [videoId|] eqn:Hk; [|done]. injection He as <-.
    unfold invariant; simpl. split; [done|]. split.
    + intros Hl. destruct (Hload Hl) as (_ & _ & Hp & _). by rewrite Hp in Hk.
    + intros vid Hin.
      assert (vid ∈ id <$> videos s) as Hv.
      { apply Hids. apply elem_of_app in Hin as [Hin | Hin];
          apply elem_of_app; [by left | right; by eapply elem_of_delete]. }
      destruct o; [by rewrite ids_mark | done].
Qed.

Lemma library_reachable_invariant s : reachable s → invariant s.
Proof.
  induction 1 as [|s e s' _ IH He].
  - unfold invariant; simpl. by repeat split.
  - by eapply library_invariant_handle.
Qed.

(** X29: Until the list has arrived nothing can be done on the page but wait for
    it; and every timer that is armed and every POST that is in flight is
    for a video of the list. *)
Theorem watch_requests_are_for_listed_videos s :
  reachable s →
  (loading s = true → ∀ e s', handle s e = Some s' → ∃ o, e = VideosSettled o)
  ∧ (∀ vid, vid ∈ timers s ++ posts s → ∃ v, v ∈ videos s ∧ id v = vid).
Proof.
  intros Hs. destruct (library_reachable_invariant s Hs) as (Hfl & Hload & Hids). split.
  - intros Hl e s' He. destruct (Hload Hl) as (_ & Ht & Hp & _).
    destruct e; simpl in He; rewrite ?Hl, ?Ht, ?Hp in He; try done. eauto.
  - intros vid Hin. apply Hids, list_elem_of_fmap in Hin as (v & -> & Hv). eauto.
Qed.

Lemma reachable_run s tr s' : reachable s → run s tr = Some s' → reachable s'.
Proof.
  revert s. induction tr as [|e tr IH]; intros s Hs; simpl.
  - by intros [= <-].
  - destruct (handle s e) as [s1|] eqn:He; [|done]. apply IH.
    by eapply reachable_step.
Qed.

End Page.

(** On the sample page the first video is watched: one watched video
    more. *)
Lemma watched_only_grows_witness :
  watchedCount sample_library
  <= watchedCount (sample_run [ClickWatch 0; TimerFired 0; WatchSettled 0 (Resolved ())]).
Proof.
  destruct (watched_only_grows ascii_toLowerCase
              (sample_run [ClickWatch 0; TimerFired 0])
              (WatchSettled 0 (Resolved ()))
              (sample_run [ClickWatch 0; TimerFired 0; WatchSettled 0 (Resolved ())]))
    as (_ & _ & [H _] & _).
  - vm_compute. reflexivity.
  - intros o. discriminate.
  - exact H.
Defined.

Lemma watch_requests_witness :
  ∃ v, v ∈ videos (sample_run [ClickWatch 0; TimerFired 0]) ∧ id v = "v1".
Proof.
  destruct (watch_requests_are_for_listed_videos ascii_toLowerCase
              (sample_run [ClickWatch 0; TimerFired 0]))
    as [_ H].
  - apply (reachable_run ascii_toLowerCase mount
             [VideosSettled (Resolved sample_videos); ClickWatch 0; TimerFired 0]);
      [constructor | vm_compute; reflexivity].
  - apply H. vm_compute. apply list_elem_of_singleton. reflexivity.
Defined.

End VideoLibraryFacts.

(** ** Properties of the dashboard *)

Module DashboardFacts.

Import Js DashboardPage.

(** X30: The dashboard loads all or nothing.  Without a student no request is
    made and the page stays loading.  With one, once the three requests have
    settled the page is no longer loading, and either all three resolved
    and the three results are shown without error, or at least one was
    rejected and then none of the results is kept, also those of the
    requests that resolved, and one of the two error texts is shown. *)
Theorem dashboard_is_all_or_nothing present a b c s' :
  settle a b c (mount present) = Some s' →
  present = true ∧ loading s' = false ∧ fetching s' = false
  ∧ ((∃ x y z, a.2 = Resolved x ∧ b.2 = Resolved y ∧ c.2 = Resolved z
               ∧ stats s' = x ∧ systemHealth s' = y
               ∧ chapterProgress s' = default [] z ∧ error s' = None)
     ∨ ((∃ e, a.2 = Rejected e ∨ b.2 = Rejected e ∨ c.2 = Rejected e)
        ∧ stats s' = None ∧ systemHealth s' = None ∧ chapterProgress s' = []
        ∧ (error s' = Some "Server took too long. Try refreshing."
           ∨ error s' = Some "Could not load dashboard data."))).
Proof.
  unfold settle, mount; simpl. destruct present; [|done]. intros [= <-].
  split; [done|]. unfold Promise_all3.
  destruct a as [ta [x|ea]], b as [tb [y|eb]], c as [tc [z|ec]]; simpl.
  1: { repeat split. left. destruct x, y, z; eauto 10. }
  all: repeat split; right; split; eauto.
  all: repeat split; try done.
  all: match goal with |- context [mentions_timeout ?e] =>
         destruct (mentions_timeout e); auto end.
Qed.

Lemma dashboard_without_student a b c : settle a b c (mount false) = None.
Proof. reflexivity. Qed.

Lemma dashboard_is_all_or_nothing_witness :
  stats (default (mount true)
           (settle (300, Resolved None)
                   (200, Rejected {| name := "AxiosError"; message := Some "Network Error" |})
                   (400, Resolved (Some []))
                   (mount true)))
  = None.
Proof.
  destruct (dashboard_is_all_or_nothing true (300, Resolved None)
              (200, Rejected {| name := "AxiosError"; message := Some "Network Error" |})
              (400, Resolved (Some []))
              (default (mount true)
                 (settle (300, Resolved None)
                    (200, Rejected {| name := "AxiosError";
                                      message := Some "Network Error" |})
                    (400, Resolved (Some [])) (mount true))))
    as (_ & _ & _ & [(x & y & z & _ & Hb & _) | (_ & H & _)]).
  - reflexivity.
  - discriminate Hb.
  - exact H.
Defined.

End DashboardFacts.
